(** * geo-agg-tile-index-example: tile pyramid indexing and aggregation

    A shallow embedding of [main.go]: the per-record tile stack built by
    [Record.SetLevels], the lazily cached [Tile.Center], the key decoding of
    [FromRawStatsToGeoJSONFeatureItem] and the aggregation pipeline issued by
    [demo].

    Conventions.
    - Go [int], [uint32] and [int64] values are integers in [Z]; every
      conversion the source writes ([uint32(z)], [maptile.Zoom(z)],
      [uint32(x)]) is written out as a wrap-around.
    - [float64] is the primitive IEEE 754 binary64 type of Rocq.
    - Go strings are byte strings: [string].
    - A Go run-time panic is the [Panic] outcome of [result].
    - The functions of [github.com/paulmach/orb/maptile] that compute with
      floating point ([At], [Tile.Center]) are not part of this repository;
      they are the operations of the class [MapTileLib]. *)

From Stdlib Require Import ZArith List Sorted Permutation String Ascii Bool Lia Floats.
From Stdlib Require Decimal DecimalFacts DecimalPos DecimalN DecimalString.
From Equations Require Import Equations.
Import ListNotations.

Set Warnings "-inexact-float".

Open Scope string_scope.
Open Scope list_scope.
Open Scope Z_scope.

(** ** Go run time *)

Inductive panic : Type :=
| IndexOutOfRange (index : nat) (len : nat).

Inductive result (A : Type) : Type :=
| Ok (a : A)
| Panic (p : panic).
Arguments Ok {A} a.
Arguments Panic {A} p.

Definition bind {A B : Type} (r : result A) (k : A -> result B) : result B :=
  match r with
  | Ok a => k a
  | Panic p => Panic p
  end.

Notation "x <- r ;; k" := (bind r (fun x => k))
  (at level 61, r at next level, right associativity).

(** [s[i]] on a slice: a panic when [i] is not below [len(s)]. *)
Definition index {A : Type} (s : list A) (i : nat) : result A :=
  match nth_error s i with
  | Some a => Ok a
  | None => Panic (IndexOutOfRange i (List.length s))
  end.

Definition float64 : Type := float.
Definition uint32 : Type := Z.

(** Conversion of a Go integer to [uint32]: reduction modulo 2^32. *)
Definition to_uint32 (n : Z) : uint32 := n mod 2 ^ 32.

(** ** Decimal formatting: the [%v] verb of [fmt] on integers *)

Definition digit_char (d : Z) : ascii :=
  ascii_of_nat (48 + Z.to_nat d).

(** The digit loop of the formatter: the least significant digit is written
    first, in front of what has been written so far. *)
Fixpoint fmt_digits (fuel : nat) (u : Z) (acc : string) : string :=
  match fuel with
  | O => acc
  | S fuel' =>
      let acc' := String (digit_char (u mod 10)) acc in
      if u <? 10 then acc' else fmt_digits fuel' (u / 10) acc'
  end.

(** A 64-bit value has at most 20 decimal digits. *)
Definition fmt_uint (u : Z) : string := fmt_digits 20 u "".

Definition fmt_int (i : Z) : string :=
  if i <? 0 then String "-" (fmt_uint (- i)) else fmt_uint i.

(** [fmt.Sprintf("%v-%v-%v", x, y, z)] with [x, y uint32] and [z int]. *)
Definition Sprintf_key (x y : uint32) (z : Z) : string :=
  (fmt_uint x ++ "-" ++ fmt_uint y ++ "-" ++ fmt_int z)%string.

(** ** [strings.Split] with a one-byte separator *)

(** [strings.Split(s, sep)]: the pieces of [s] between the occurrences of
    the byte [sep]; a string without [sep] is its own single piece, the
    empty string included. *)
Fixpoint Split (s : string) (sep : ascii) : list string :=
  match s with
  | EmptyString => [EmptyString]
  | String c s' =>
      if Ascii.eqb c sep then EmptyString :: Split s' sep
      else match Split s' sep with
           | [] => [String c EmptyString]
           | piece :: pieces => String c piece :: pieces
           end
  end.

(** ** [strconv.ParseInt(s, 10, 64)] *)

Inductive NumError : Type :=
| ErrSyntax
| ErrRange.

Definition maxUint64 : Z := 2 ^ 64 - 1.

(** The loop of [ParseUint] over the bytes of [s] in base 10, entered with
    the value [n] read so far. A byte that is not a decimal digit is a
    syntax error with value 0; an overflow of [uint64] is a range error
    with the largest value, reported as soon as it happens. *)
Fixpoint ParseUint_loop (s : string) (n : Z) : Z * option NumError :=
  match s with
  | EmptyString => (n, None)
  | String c s' =>
      let b := Z.of_nat (nat_of_ascii c) in
      if (48 <=? b) && (b <=? 57) then
        let d := b - 48 in
        if maxUint64 / 10 + 1 <=? n then (maxUint64, Some ErrRange)
        else
          let n1 := n * 10 + d in
          if maxUint64 <? n1 then (maxUint64, Some ErrRange)
          else ParseUint_loop s' n1
      else (0, Some ErrSyntax)
  end.

Definition ParseUint (s : string) : Z * option NumError :=
  match s with
  | EmptyString => (0, Some ErrSyntax)
  | _ => ParseUint_loop s 0
  end.

Definition ParseInt (s : string) : Z * option NumError :=
  match s with
  | EmptyString => (0, Some ErrSyntax)
  | String c s' =>
      let neg := Ascii.eqb c "-" in
      let s1 := if Ascii.eqb c "+" || neg then s' else s in
      match ParseUint s1 with
      | (_, Some ErrSyntax) => (0, Some ErrSyntax)
      | (un, _) =>
          let cutoff := 2 ^ 63 in
          if negb neg && (cutoff <=? un) then (cutoff - 1, Some ErrRange)
          else if neg && (cutoff <? un) then (- cutoff, Some ErrRange)
          else (if neg then - un else un, None)
      end
  end.

(** ** The [maptile] package *)

Module maptile.
(** [type Zoom uint32] *)
Definition Zoom : Type := uint32.

(** [type Tile struct { X, Y uint32; Z Zoom }]; [New(x, y, z)] is the
    struct literal. *)
Record Tile : Type := New { X : uint32; Y : uint32; Z : Zoom }.

(** [maptile.Zoom(z)] on a Go [int]. *)
Definition Zoom_of_int (z : BinNums.Z) : Zoom := to_uint32 z.
End maptile.

(** The floating-point part of the package: [At] projects a point
    (longitude, latitude) to its tile at a zoom, [Center] gives the centre
    (longitude, latitude) of a tile. [At] returns a tile of the zoom it was
    asked for. *)
Class MapTileLib : Type := {
  maptile_At : float64 * float64 -> maptile.Zoom -> maptile.Tile;
  maptile_Center : maptile.Tile -> float64 * float64;
  maptile_At_zoom : forall ll z, maptile.Z (maptile_At ll z) = z
}.

(** ** Data model of [main.go] *)

Definition minZoom : Z := 0.
Definition maxZoom : Z := 13.

Module GeoPoint.
Record t : Type := mk {
  Type_ : string;
  Coordinates : list float64
}.
End GeoPoint.

Module Tile.
(** [orbmaptile] is a pointer: [None] is [nil]. Each tile owns the
    variable its pointer refers to, so the pointee is stored in place. *)
Record t : Type := mk {
  X : uint32;
  Y : uint32;
  Z : uint32;
  Key : string;
  orbmaptile : option maptile.Tile
}.
End Tile.

Definition ObjectID : Type := list Byte.byte.

(** [type Record struct]. *)
Record Record_ : Type := {
  ID : ObjectID;
  Location : GeoPoint.t;
  Levels : list Tile.t
}.

Module RawStats.
Record t : Type := mk {
  ID : string;
  Count : Z
}.
End RawStats.

(** The values of the [map[string]interface{}] of a feature. *)
Inductive property : Type :=
| PInt (n : Z)
| PString (s : string).

Module GeoJSONFeatureItem.
Record t : Type := mk {
  Type_ : string;
  Properties : list (string * property);
  Geometry : GeoPoint.t
}.
End GeoJSONFeatureItem.

Module GeoJSONFeatures.
Record t : Type := mk {
  Type_ : string;
  Features : list GeoJSONFeatureItem.t
}.
End GeoJSONFeatures.

Section WithMapTile.
Context {lib : MapTileLib}.

(** [Tile.Center]: the result and the tile after the call. *)
Definition Center (t : Tile.t) : (float64 * float64) * Tile.t :=
  match Tile.orbmaptile t with
  | None =>
      let _tmp := maptile.New (Tile.X t) (Tile.Y t) (Tile.Z t) in
      (maptile_Center _tmp,
       Tile.mk (Tile.X t) (Tile.Y t) (Tile.Z t) (Tile.Key t) (Some _tmp))
  | Some p => (maptile_Center p, t)
  end.

(** The tile appended by one iteration of the loop of [SetLevels]. *)
Definition level_tile (orbmaptile : maptile.Tile) (z : Z) : Tile.t :=
  let x := maptile.X orbmaptile in
  let y := maptile.Y orbmaptile in
  Tile.mk x y (to_uint32 z) (Sprintf_key x y z) (Some orbmaptile).

(** Iterations left when the loop of [SetLevels] tests its condition at
    [z]. *)
Definition iterations_left (z : Z) : nat := Z.to_nat (maxZoom + 1 - z).
Arguments iterations_left : simpl never.

(** The loop [for z := ...; z <= maxZoom; z++] of [SetLevels], entered at
    [z] with [acc] the value of [r.Levels]. *)
Equations? Levels_loop (coords : list float64) (z : Z) (acc : list Tile.t)
  : result (list Tile.t) by wf (iterations_left z) lt :=
  Levels_loop coords z acc with Z_le_gt_dec z maxZoom => {
    | left _ :=
        lon <- index coords 0 ;;
        lat <- index coords 1 ;;
        let orbmaptile := maptile_At (lon, lat) (maptile.Zoom_of_int z) in
        Levels_loop coords (z + 1) (acc ++ [level_tile orbmaptile z]);
    | right _ := Ok acc }.
Proof. unfold iterations_left. lia. Qed.

(** [SetLevels]: [r.Levels] is reset to the empty slice, then filled by the
    loop; the record after the call. *)
Definition SetLevels (r : Record_) : result Record_ :=
  levels <- Levels_loop (GeoPoint.Coordinates (Location r)) minZoom [] ;;
  Ok {| ID := ID r; Location := Location r; Levels := levels |}.

(** [len] consecutive integers from [start]: the values [z] takes in the
    loop. *)
Fixpoint Zseq (start : Z) (len : nat) : list Z :=
  match len with
  | O => []
  | S len' => start :: Zseq (start + 1) len'
  end.

(** The tile of the point [(lon, lat)] appended at zoom [z]. *)
Definition tile_at (lon lat : float64) (z : Z) : Tile.t :=
  level_tile (maptile_At (lon, lat) (maptile.Zoom_of_int z)) z.

(** *** Decoding an aggregation result *)

(** Lines 119-124 of [FromRawStatsToGeoJSONFeatureItem]: the tile
    [obrMapTile] built from the key. The errors of [ParseInt] are
    discarded, as the source discards them. *)
Definition obrMapTile_of_key (id : string) : result maptile.Tile :=
  let parts := Split id "-" in
  xStr <- index parts 0 ;;
  yStr <- index parts 1 ;;
  zStr <- index parts 2 ;;
  let x := fst (ParseInt xStr) in
  let y := fst (ParseInt yStr) in
  let z := fst (ParseInt zStr) in
  Ok (maptile.New (to_uint32 x) (to_uint32 y) (maptile.Zoom_of_int z)).

Definition FromRawStatsToGeoJSONFeatureItem (raw : RawStats.t)
  : result GeoJSONFeatureItem.t :=
  obrMapTile <- obrMapTile_of_key (RawStats.ID raw) ;;
  let center := maptile_Center obrMapTile in
  let centerLng := fst center in
  let centerLat := snd center in
  Ok (GeoJSONFeatureItem.mk "Feature"
        [("count", PInt (RawStats.Count raw));
         ("tileKey", PString (RawStats.ID raw))]
        (GeoPoint.mk "Point" [centerLng; centerLat])).

(** *** The aggregation pipeline of [demo] *)

(** [{"$match": {"levels.z": level}}] on stored records: a record passes
    when some element of its [levels] array has that [z]. *)
Definition match_levels_z (level : Z) (docs : list Record_) : list Record_ :=
  filter (fun r => existsb (fun t => Tile.Z t =? level) (Levels r)) docs.

(** [{"$unwind": "$levels"}]: one document per element of [levels], the
    element in place of the array; the record is kept beside it. *)
Definition unwind_levels (docs : list Record_) : list (Record_ * Tile.t) :=
  flat_map (fun r => map (fun t => (r, t)) (Levels r)) docs.

(** [{"$match": {"levels.z": level}}] after the unwind. *)
Definition match_level_z (level : Z) (docs : list (Record_ * Tile.t))
  : list (Record_ * Tile.t) :=
  filter (fun d => Tile.Z (snd d) =? level) docs.

(** One more document for the group of key [k]. *)
Fixpoint group_add (k : string) (groups : list RawStats.t)
  : list RawStats.t :=
  match groups with
  | [] => [RawStats.mk k 1]
  | g :: gs =>
      if String.eqb (RawStats.ID g) k
      then RawStats.mk (RawStats.ID g) (RawStats.Count g + 1) :: gs
      else g :: group_add k gs
  end.

(** [{"$group": {"_id": "$levels.key", "count": {"$sum": 1}}}]. The
    order of the groups is that of the first document of each. *)
Definition group_by_key (docs : list (Record_ * Tile.t))
  : list RawStats.t :=
  fold_left (fun groups d => group_add (Tile.Key (snd d)) groups) docs [].

(** [repo.Aggregate(ctx, pipes)] decoded to [[]RawStats], over the stored
    records. *)
Definition Aggregate (stored : list Record_) (level : Z)
  : list RawStats.t :=
  group_by_key
    (match_level_z level (unwind_levels (match_levels_z level stored))).

(** The loop of [demo] filling [res]. *)
Fixpoint features_loop (rawRes : list RawStats.t)
  : result (list GeoJSONFeatureItem.t) :=
  match rawRes with
  | [] => Ok []
  | item :: rest =>
      f <- FromRawStatsToGeoJSONFeatureItem item ;;
      fs <- features_loop rest ;;
      Ok (f :: fs)
  end.

End WithMapTile.

(** *** [demo] and its collaborators *)

(** What [repo.Aggregate] followed by [xmongo.Decode] hands to [demo]: the
    error of the first, the error of the second, or the decoded groups. *)
Inductive store_reply : Type :=
| AggregateError (err : string)
| DecodeError (err : string)
| Decoded (rawRes : list RawStats.t).

(** [json.MarshalIndent(finalRes, "", "  ")]: the bytes and the error. *)
Class JSONEncoder : Type := {
  MarshalIndent : GeoJSONFeatures.t -> string * option string
}.

(** The panics of [demo]: [log.Panicln] with its two arguments, or a
    run-time panic of the decoding. *)
Inductive demo_panic : Type :=
| LogPanicln (what err : string)
| DecodingPanic (p : panic).

(** [demo] ends by printing a text, or panics. *)
Inductive demo_result : Type :=
| Printed (content : string)
| DemoPanic (v : demo_panic).

(** [demo]. The store [repo] gives, for the pipeline built from [level],
    its reply; the error of [MarshalIndent] is discarded, as in the
    source. *)
Definition demo {lib : MapTileLib} {enc : JSONEncoder}
  (repo : Z -> store_reply) (level : Z) : demo_result :=
  match repo level with
  | AggregateError err => DemoPanic (LogPanicln "Aggregate err" err)
  | DecodeError err => DemoPanic (LogPanicln "Decode err" err)
  | Decoded rawRes =>
      match features_loop rawRes with
      | Panic p => DemoPanic (DecodingPanic p)
      | Ok res =>
          let finalRes := GeoJSONFeatures.mk "FeatureCollection" res in
          let content := fst (MarshalIndent finalRes) in
          Printed content
      end
  end.

(** The store holds [stored] and answers the pipeline of [level] with
    [rawRes]: the groups of the pipeline, in any order. *)
Definition answers (repo : Z -> store_reply) (stored : list Record_)
  (level : Z) (rawRes : list RawStats.t) : Prop :=
  repo level = Decoded rawRes /\ Permutation rawRes (Aggregate stored level).

(** ** Vocabulary of the specification *)

Definition is_digit (c : ascii) : Prop :=
  48 <= Z.of_nat (nat_of_ascii c) <= 57.

Fixpoint all_digits (s : string) : Prop :=
  match s with
  | EmptyString => True
  | String c s' => is_digit c /\ all_digits s'
  end.

(** The records the indexer produces. *)
Definition indexed {lib : MapTileLib} (r : Record_) : Prop :=
  exists r0, SetLevels r0 = Ok r.

(** A tile membership of record [r] at zoom [level]. *)
Definition has_membership (level : Z) (r : Record_) : bool :=
  existsb (fun t => Tile.Z t =? level) (Levels r).

(** A tile membership of record [r] at zoom [level] under key [k]. *)
Definition has_membership_key (level : Z) (k : string) (r : Record_) : bool :=
  existsb (fun t => (Tile.Z t =? level) && String.eqb (Tile.Key t) k)
          (Levels r).

(** The count the groups hold for key [k]: 0 when there is no such
    group. *)
Fixpoint group_count (k : string) (groups : list RawStats.t) : Z :=
  match groups with
  | [] => 0
  | g :: gs =>
      if String.eqb (RawStats.ID g) k then RawStats.Count g
      else group_count k gs
  end.

Definition sum_counts (groups : list RawStats.t) : Z :=
  fold_right (fun g acc => RawStats.Count g + acc) 0 groups.

(** ** A concrete tiling, to run the program on inputs

    [maptile] itself needs [math.Sin] and [math.Log]. The linear
    (equirectangular) tiling below has the same interface and computes
    with binary64 arithmetic only. *)

(** Truncation of a float towards zero. *)
Definition float_trunc (f : float) : Z :=
  match Prim2SF f with
  | S754_finite s m e =>
      let a := Z.shiftl (Z.pos m) e in
      if s then - a else a
  | _ => 0
  end.

Definition float_of_Z (n : Z) : float := of_uint63 (Uint63.of_Z n).

Definition linear_At (ll : float64 * float64) (z : maptile.Zoom)
  : maptile.Tile :=
  let maxtiles := float_of_Z (2 ^ z) in
  let fx := ((fst ll / 360 + 0.5) * maxtiles)%float in
  let fy := ((0.5 - snd ll / 180) * maxtiles)%float in
  maptile.New (to_uint32 (float_trunc fx)) (to_uint32 (float_trunc fy)) z.

Definition linear_Center (t : maptile.Tile) : float64 * float64 :=
  let maxtiles := float_of_Z (2 ^ maptile.Z t) in
  let cx := ((float_of_Z (maptile.X t) + 0.5) / maxtiles)%float in
  let cy := ((float_of_Z (maptile.Y t) + 0.5) / maxtiles)%float in
  ((cx * 360 - 180)%float, (90 - cy * 180)%float).

Definition linear_tiling : MapTileLib :=
  {| maptile_At := linear_At;
     maptile_Center := linear_Center;
     maptile_At_zoom := fun _ _ => eq_refl |}.

(** Sample data. *)
Definition new_york : GeoPoint.t :=
  GeoPoint.mk "Point" [(-73.99)%float; 40.73%float].

Definition record_of (p : GeoPoint.t) : Record_ :=
  {| ID := []; Location := p; Levels := [] |}.

(** The range of coordinates the specification calls valid. *)
Definition valid_coordinates (lon lat : float64) : bool :=
  ((-180 <=? lon) && (lon <=? 180) && (-85.05 <=? lat) && (lat <=? 85.05))%float.

(** A point far outside that range. *)
Definition far_away : GeoPoint.t :=
  GeoPoint.mk "Point" [1000%float; 1000%float].

Definition boston : GeoPoint.t :=
  GeoPoint.mk "Point" [(-71.06)%float; 42.36%float].

(** The record stored for a point under the linear tiling. *)
Definition indexed_record (p : GeoPoint.t) : Record_ :=
  match @SetLevels linear_tiling (record_of p) with
  | Ok r => r
  | Panic _ => record_of p
  end.

(** Three records at one point and one elsewhere. *)
Definition sample_store : list Record_ :=
  [indexed_record new_york; indexed_record new_york;
   indexed_record new_york; indexed_record boston].

(** A record of New York that differs from [record_of new_york] in all that
    is not longitude and latitude. *)
Definition other_new_york_record : Record_ :=
  {| ID := [Byte.x01];
     Location := GeoPoint.mk "point" [(-73.99)%float; 40.73%float; 12%float];
     Levels := [Tile.mk 7 7 7 "7-7-7" None] |}.


(** The feature emitted for the tile [(x, y, z)] of an aggregation result. *)
Definition feature_of {lib : MapTileLib} (raw : RawStats.t) (x y z : Z)
  : GeoJSONFeatureItem.t :=
  let center := maptile_Center (maptile.New x y z) in
  GeoJSONFeatureItem.mk "Feature"
    [("count", PInt (RawStats.Count raw));
     ("tileKey", PString (RawStats.ID raw))]
    (GeoPoint.mk "Point" [fst center; snd center]).


(** ** Loading the demonstration data *)

(** What [SetupDemoData] takes from outside: [strconv.ParseFloat(s, 64)],
    the value with the error it returns, and [primitive.NewObjectID], as
    the identifier its n-th call returns. *)
Class DemoEnv : Type := {
  ParseFloat : string -> float64 * option NumError;
  NewObjectID : nat -> ObjectID
}.

(** The values [SetupDemoData] can panic with: the error of [ParseFloat]
    for the text it was given, or a run-time panic. *)
Inductive load_panic : Type :=
| ParseFloatError (num : string) (err : NumError)
| RuntimePanic (p : panic).

Inductive load_result : Type :=
| Loaded (ret : list Record_)
| LoadPanic (v : load_panic).

(** The line feed of [strings.Split(string(exampleGeosCSV), "\n")]. *)
Definition line_feed : ascii := ascii_of_nat 10.

(** The loop of [SetupDemoData] over the lines that are left; [index] is
    the index of the first of them, [ids] the number of identifiers drawn so
    far, [ret] the records appended so far. *)
Fixpoint SetupDemoData_loop {lib : MapTileLib} {env : DemoEnv}
  (lines : list string) (index ids : nat) (ret : list Record_) : load_result :=
  match lines with
  | [] => Loaded ret
  | line :: rest =>
      if Nat.eqb index 0 then SetupDemoData_loop rest (S index) ids ret
      else
        match Split line "," with
        | [lat_str; long_str] =>
            match ParseFloat lat_str with
            | (_, Some err) => LoadPanic (ParseFloatError lat_str err)
            | (lat_float, None) =>
                match ParseFloat long_str with
                | (_, Some err) => LoadPanic (ParseFloatError long_str err)
                | (long_float, None) =>
                    let record :=
                      {| ID := NewObjectID ids;
                         Location := GeoPoint.mk "Point" [long_float; lat_float];
                         Levels := [] |} in
                    match SetLevels record with
                    | Ok record' =>
                        SetupDemoData_loop rest (S index) (S ids) (ret ++ [record'])
                    | Panic p => LoadPanic (RuntimePanic p)
                    end
                end
            end
        | _ => SetupDemoData_loop rest (S index) ids ret
        end
  end.

(** [SetupDemoData], with the embedded file as its argument. *)
Definition SetupDemoData {lib : MapTileLib} {env : DemoEnv}
  (exampleGeosCSV : string) : load_result :=
  SetupDemoData_loop (Split exampleGeosCSV line_feed) 0 0 [].

(** ** Vocabulary of the properties *)

(** The library returns [uint32] values, as its Go types say. *)
Definition uint32_valued (lib : MapTileLib) : Prop :=
  forall ll z,
    0 <= maptile.X (maptile_At ll z) < 2 ^ 32 /\
    0 <= maptile.Y (maptile_At ll z) < 2 ^ 32.

(** The byte [c] does not occur in [s]. *)
Fixpoint no_byte (c : ascii) (s : string) : Prop :=
  match s with
  | EmptyString => True
  | String c' s' => c' <> c /\ no_byte c s'
  end.

(** The tiles of a store at zoom [level]. *)
Definition tiles_at (level : Z) (stored : list Record_) : list Tile.t :=
  filter (fun t => Tile.Z t =? level) (flat_map Levels stored).

(** The coordinates of the record a line of the file gives, if it gives
    one: the second field first. *)
Definition line_coordinates {env : DemoEnv} (line : string)
  : list (list float64) :=
  match Split line "," with
  | [lat_str; long_str] =>
      [[fst (ParseFloat long_str); fst (ParseFloat lat_str)]]
  | _ => []
  end.

(** A line of two fields has two fields that [ParseFloat] accepts. *)
Definition line_parses {env : DemoEnv} (line : string) : Prop :=
  match Split line "," with
  | [lat_str; long_str] =>
      snd (ParseFloat lat_str) = None /\ snd (ParseFloat long_str) = None
  | _ => True
  end.

(** A stand-in for the collaborators, to run the loader on inputs: a
    parser that knows four numbers, and identifiers that grow. *)
Definition sample_ParseFloat (s : string) : float64 * option NumError :=
  if String.eqb s "40.73" then (40.73%float, None)
  else if String.eqb s "-73.99" then ((-73.99)%float, None)
  else if String.eqb s "42.36" then (42.36%float, None)
  else if String.eqb s "-71.06" then ((-71.06)%float, None)
  else (0%float, Some ErrSyntax).

Definition sample_env : DemoEnv :=
  {| ParseFloat := sample_ParseFloat;
     NewObjectID := fun n => repeat Byte.x01 n |}.

(** A file of a header, two data lines, a line of three fields and an
    empty last line. *)
Definition sample_csv : string :=
  ("Latitude,Longitude" ++ String line_feed
   ("40.73,-73.99" ++ String line_feed
    ("42.36,-71.06" ++ String line_feed
     ("1,2,3" ++ String line_feed ""))))%string.

(** What the loader returns for [sample_csv]. *)
Definition sample_loaded : list Record_ :=
  match @SetupDemoData linear_tiling sample_env sample_csv with
  | Loaded ret => ret
  | LoadPanic _ => []
  end.

(** The record stored for [other_new_york_record]. *)
Definition other_new_york_indexed : Record_ :=
  match @SetLevels linear_tiling other_new_york_record with
  | Ok r => r
  | Panic _ => other_new_york_record
  end.

(** The tile of New York at zoom 12 under the linear tiling. *)
Definition new_york_tile_12 : Tile.t :=
  Tile.mk 1206 1121 12 "1206-1121-12" (Some (maptile.New 1206 1121 12)).

(** ** Decimal numerals *)

(** The decimal numeral of a natural number, as the standard library
    prints it: the reference for what [%v] writes. *)
Definition decimal (n : Z) : string :=
  DecimalString.NilZero.string_of_uint (N.to_uint (Z.to_N n)).

(** The text of a key for the tile [(x, y, z)]. *)
Definition key_text (x y z : Z) : string :=
  (decimal x ++ "-" ++ decimal y ++ "-" ++ decimal z)%string.

(** One more decimal digit in front of a numeral. *)
Definition cons_digit (d : Z) (rest : Decimal.uint) : Decimal.uint :=
  match d with
  | 0 => Decimal.D0 rest
  | 1 => Decimal.D1 rest
  | 2 => Decimal.D2 rest
  | 3 => Decimal.D3 rest
  | 4 => Decimal.D4 rest
  | 5 => Decimal.D5 rest
  | 6 => Decimal.D6 rest
  | 7 => Decimal.D7 rest
  | 8 => Decimal.D8 rest
  | _ => Decimal.D9 rest
  end.

(** The digits [fmt_digits] writes, least significant first. *)
Fixpoint little_digits (fuel : nat) (u : Z) : Decimal.uint :=
  match fuel with
  | O => Decimal.Nil
  | S fuel' =>
      cons_digit (u mod 10)
                 (if u <? 10 then Decimal.Nil else little_digits fuel' (u / 10))
  end.

(** ** Longitude at the edge *)



(** ** Stand-ins to run [demo] *)

(** An encoder that writes the keys of the features, one per line. *)
Definition sample_MarshalIndent (c : GeoJSONFeatures.t)
  : string * option string :=
  (String.concat (String line_feed "")
     (map (fun f => match GeoJSONFeatureItem.Properties f with
                    | [_; (_, PString k)] => k
                    | _ => ""
                    end)
          (GeoJSONFeatures.Features c)),
   None).

Definition sample_encoder : JSONEncoder :=
  {| MarshalIndent := sample_MarshalIndent |}.

(** A store that holds [stored] and always answers. *)
Definition working_repo (stored : list Record_) : Z -> store_reply :=
  fun level => Decoded (Aggregate stored level).


(** * Properties *)

(** ** What [%v] writes *)

Lemma cons_digit_string d rest :
  0 <= d <= 9 ->
  DecimalString.NilEmpty.string_of_uint (cons_digit d rest) =
  String (digit_char d) (DecimalString.NilEmpty.string_of_uint rest).
Proof.
  intros Hd.
  assert (H : d = 0 \/ d = 1 \/ d = 2 \/ d = 3 \/ d = 4 \/ d = 5 \/
              d = 6 \/ d = 7 \/ d = 8 \/ d = 9) by lia.
  repeat (destruct H as [-> | H]; [reflexivity|]). now subst.
Qed.

Lemma cons_digit_value d rest :
  0 <= d <= 9 ->
  DecimalPos.Unsigned.of_lu (cons_digit d rest) =
  (Z.to_N d + 10 * DecimalPos.Unsigned.of_lu rest)%N.
Proof.
  intros Hd.
  assert (H : d = 0 \/ d = 1 \/ d = 2 \/ d = 3 \/ d = 4 \/ d = 5 \/
              d = 6 \/ d = 7 \/ d = 8 \/ d = 9) by lia.
  repeat (destruct H as [-> | H]; [reflexivity|]). now subst.
Qed.

Lemma cons_digit_revapp d rest acc :
  0 <= d <= 9 ->
  Decimal.revapp (cons_digit d rest) acc = Decimal.revapp rest (cons_digit d acc).
Proof.
  intros Hd.
  assert (H : d = 0 \/ d = 1 \/ d = 2 \/ d = 3 \/ d = 4 \/ d = 5 \/
              d = 6 \/ d = 7 \/ d = 8 \/ d = 9) by lia.
  repeat (destruct H as [-> | H]; [reflexivity|]). now subst.
Qed.

Lemma cons_digit_nzhead d acc :
  1 <= d <= 9 -> Decimal.nzhead (cons_digit d acc) = cons_digit d acc.
Proof.
  intros Hd.
  assert (H : d = 1 \/ d = 2 \/ d = 3 \/ d = 4 \/ d = 5 \/
              d = 6 \/ d = 7 \/ d = 8 \/ d = 9) by lia.
  repeat (destruct H as [-> | H]; [reflexivity|]). now subst.
Qed.

(** [fmt_digits] writes the digits of [little_digits], most significant
    first. *)
Lemma fmt_digits_little fuel : forall u acc,
  0 <= u ->
  fmt_digits fuel u (DecimalString.NilEmpty.string_of_uint acc) =
  DecimalString.NilEmpty.string_of_uint
    (Decimal.revapp (little_digits fuel u) acc).
Proof.
  induction fuel as [|fuel IH]; intros u acc Hu; [reflexivity|].
  pose proof (Z.mod_pos_bound u 10 ltac:(lia)) as Hm.
  cbn [fmt_digits little_digits].
  rewrite cons_digit_revapp by lia.
  rewrite <- (cons_digit_string (u mod 10) acc) by lia.
  destruct (u <? 10); [reflexivity|].
  apply IH. apply Z.div_pos; lia.
Qed.

Lemma little_digits_value fuel : forall u,
  0 <= u < 10 ^ Z.of_nat fuel ->
  DecimalPos.Unsigned.of_lu (little_digits fuel u) = Z.to_N u.
Proof.
  induction fuel as [|fuel IH]; intros u Hu.
  - simpl in Hu. replace u with 0 by lia. reflexivity.
  - pose proof (Z.mod_pos_bound u 10 ltac:(lia)) as Hm.
    pose proof (Z.div_mod u 10 ltac:(lia)) as Hdm.
    cbn [little_digits]. rewrite cons_digit_value by lia.
    destruct (Z.ltb_spec u 10) as [Hlt|Hge].
    + rewrite Z.mod_small by lia. simpl. lia.
    + rewrite IH.
      * apply N2Z.inj. pose proof (Z.div_pos u 10 ltac:(lia) ltac:(lia)).
        rewrite N2Z.inj_add, N2Z.inj_mul, !Z2N.id; lia.
      * split; [apply Z.div_pos; lia|].
        apply Z.div_lt_upper_bound; [lia|].
        rewrite Nat2Z.inj_succ, Z.pow_succ_r in Hu by lia. lia.
Qed.

Lemma little_digits_no_leading_zero fuel : forall u acc,
  1 <= u < 10 ^ Z.of_nat fuel ->
  Decimal.nzhead (Decimal.revapp (little_digits fuel u) acc) =
  Decimal.revapp (little_digits fuel u) acc.
Proof.
  induction fuel as [|fuel IH]; intros u acc Hu; [simpl in Hu; lia|].
  pose proof (Z.mod_pos_bound u 10 ltac:(lia)) as Hm.
  cbn [little_digits]. rewrite cons_digit_revapp by lia.
  destruct (Z.ltb_spec u 10) as [Hlt|Hge].
  - simpl Decimal.revapp. apply cons_digit_nzhead.
    rewrite Z.mod_small by lia. lia.
  - apply IH. split.
    + apply Z.div_le_lower_bound; lia.
    + apply Z.div_lt_upper_bound; [lia|].
      rewrite Nat2Z.inj_succ, Z.pow_succ_r in Hu by lia. lia.
Qed.

(** [%v] on an unsigned integer writes its decimal numeral. *)
Lemma fmt_uint_decimal u : 0 <= u < 10 ^ 20 -> fmt_uint u = decimal u.
Proof.
  intros Hu. destruct (Z.eq_dec u 0) as [->|Hnz]; [reflexivity|].
  assert (Hu' : 1 <= u < 10 ^ Z.of_nat 20) by (simpl; lia).
  unfold fmt_uint, decimal.
  change EmptyString with (DecimalString.NilEmpty.string_of_uint Decimal.Nil).
  rewrite fmt_digits_little by lia.
  assert (Hd : N.to_uint (Z.to_N u) = Decimal.revapp (little_digits 20 u) Decimal.Nil).
  { rewrite <- (little_digits_value 20 u) by lia.
    rewrite <- (DecimalFacts.rev_rev (little_digits 20 u)) at 1.
    rewrite <- DecimalPos.Unsigned.of_uint_alt.
    change (Pos.of_uint (Decimal.rev (little_digits 20 u)))
      with (N.of_uint (Decimal.rev (little_digits 20 u))).
    rewrite DecimalN.Unsigned.to_of. unfold Decimal.unorm, Decimal.rev.
    rewrite (little_digits_no_leading_zero 20 u Decimal.Nil Hu').
    destruct (Decimal.revapp (little_digits 20 u) Decimal.Nil) eqn:E;
      try reflexivity.
    exfalso.
    assert (Hv : DecimalPos.Unsigned.of_lu (little_digits 20 u) = 0%N).
    { rewrite <- (DecimalFacts.rev_rev (little_digits 20 u)).
      unfold Decimal.rev at 2. rewrite E. reflexivity. }
    rewrite little_digits_value in Hv by lia. lia. }
  rewrite Hd. unfold DecimalString.NilZero.string_of_uint.
  destruct (Decimal.revapp (little_digits 20 u) Decimal.Nil) eqn:E;
    try reflexivity.
  exfalso.
  assert (Hv : DecimalPos.Unsigned.of_lu (little_digits 20 u) = 0%N).
  { rewrite <- (DecimalFacts.rev_rev (little_digits 20 u)).
    unfold Decimal.rev at 2. rewrite E. reflexivity. }
  rewrite little_digits_value in Hv by lia. lia.
Qed.

(** The key [Sprintf] writes is the text of the key. *)
Lemma Sprintf_key_text x y z :
  0 <= x < 2 ^ 32 -> 0 <= y < 2 ^ 32 -> 0 <= z < 2 ^ 32 ->
  Sprintf_key x y z = key_text x y z.
Proof.
  intros Hx Hy Hz. unfold Sprintf_key, key_text, fmt_int.
  destruct (Z.ltb_spec z 0); [lia|].
  rewrite !fmt_uint_decimal by lia. reflexivity.
Qed.


Section Indexer.
Context {lib : MapTileLib}.

(** ** The loop of [SetLevels] *)

Lemma Levels_loop_step coords z acc :
  Levels_loop coords z acc =
  if Z_le_gt_dec z maxZoom then
    lon <- index coords 0 ;;
    lat <- index coords 1 ;;
    Levels_loop coords (z + 1) (acc ++ [tile_at lon lat z])
  else Ok acc.
Proof.
  simp Levels_loop. destruct (Z_le_gt_dec z maxZoom); reflexivity.
Qed.

Lemma Levels_loop_ok coords lon lat :
  nth_error coords 0 = Some lon ->
  nth_error coords 1 = Some lat ->
  forall n z acc,
    iterations_left z = n ->
    Levels_loop coords z acc =
    Ok (acc ++ map (tile_at lon lat) (Zseq z n)).
Proof.
  intros H0 H1. induction n as [|n IH]; intros z acc Hn;
    rewrite Levels_loop_step; unfold iterations_left in Hn;
    destruct (Z_le_gt_dec z maxZoom) as [Hz|Hz]; try lia.
  - simpl. now rewrite app_nil_r.
  - unfold index. rewrite H0, H1. simpl.
    rewrite (IH (z + 1) _) by (unfold iterations_left; lia).
    now rewrite <- app_assoc.
Qed.

Lemma Levels_loop_panic coords z acc :
  (List.length coords < 2)%nat ->
  z <= maxZoom ->
  Levels_loop coords z acc =
  Panic (IndexOutOfRange (List.length coords) (List.length coords)).
Proof.
  intros Hlen Hz. rewrite Levels_loop_step.
  destruct (Z_le_gt_dec z maxZoom); [|lia].
  destruct coords as [|lon [|lat rest]]; simpl in *; try reflexivity; lia.
Qed.

Lemma Zseq_length start len : List.length (Zseq start len) = len.
Proof.
  revert start. induction len as [|len IH]; intros start; simpl;
    [reflexivity | now rewrite IH].
Qed.

(** The stack of a record whose point has both coordinates. *)
Lemma SetLevels_ok (r : Record_) lon lat :
  nth_error (GeoPoint.Coordinates (Location r)) 0 = Some lon ->
  nth_error (GeoPoint.Coordinates (Location r)) 1 = Some lat ->
  SetLevels r =
  Ok {| ID := ID r; Location := Location r;
        Levels := map (tile_at lon lat) (Zseq minZoom 14) |}.
Proof.
  intros H0 H1. unfold SetLevels.
  rewrite (Levels_loop_ok _ lon lat H0 H1 14 minZoom []) by reflexivity.
  reflexivity.
Qed.

Lemma two_coordinates (coords : list float64) :
  (2 <= List.length coords)%nat ->
  exists lon lat, nth_error coords 0 = Some lon /\ nth_error coords 1 = Some lat.
Proof.
  destruct coords as [|lon [|lat rest]]; simpl; intros Hlen; try lia.
  now exists lon, lat.
Qed.

(** Without both coordinates the first iteration panics: no length check
    precedes the reads. *)
Lemma SetLevels_short_panics (r : Record_) :
  (List.length (GeoPoint.Coordinates (Location r)) < 2)%nat ->
  SetLevels r =
  Panic (IndexOutOfRange (List.length (GeoPoint.Coordinates (Location r)))
                         (List.length (GeoPoint.Coordinates (Location r)))).
Proof.
  intros Hlen. unfold SetLevels.
  rewrite Levels_loop_panic; [reflexivity | assumption | unfold minZoom, maxZoom; lia].
Qed.

(** ** The entries of a stack *)

Lemma Zseq_In k start len :
  In k (Zseq start len) <-> start <= k < start + Z.of_nat len.
Proof.
  revert start. induction len as [|len IH]; intros start; simpl.
  - lia.
  - rewrite IH. lia.
Qed.

Lemma Zseq_sorted start len : StronglySorted Z.lt (Zseq start len).
Proof.
  revert start. induction len as [|len IH]; intros start; simpl;
    constructor; [apply IH|].
  apply Forall_forall. intros k Hk. apply Zseq_In in Hk. lia.
Qed.

Lemma Zseq_NoDup start len : NoDup (Zseq start len).
Proof.
  revert start. induction len as [|len IH]; intros start; simpl;
    constructor; [|apply IH].
  rewrite Zseq_In. lia.
Qed.

Lemma Zseq_nth_error start len i :
  (i < len)%nat -> nth_error (Zseq start len) i = Some (start + Z.of_nat i).
Proof.
  revert start i. induction len as [|len IH]; intros start [|i] Hi;
    simpl; try lia.
  - f_equal. lia.
  - rewrite IH by lia. f_equal. lia.
Qed.

Lemma to_uint32_small z : 0 <= z < 2 ^ 32 -> to_uint32 z = z.
Proof. intros Hz. unfold to_uint32. now apply Z.mod_small. Qed.

(** What one iteration stores: the tile the library returns at [z], with
    [z] itself and the key of the three. *)
Lemma tile_at_fields lon lat z :
  0 <= z < 2 ^ 32 ->
  let t := tile_at lon lat z in
  Tile.Z t = z /\
  Tile.X t = maptile.X (maptile_At (lon, lat) z) /\
  Tile.Y t = maptile.Y (maptile_At (lon, lat) z) /\
  Tile.Key t = Sprintf_key (Tile.X t) (Tile.Y t) (Tile.Z t) /\
  Tile.orbmaptile t = Some (maptile.New (Tile.X t) (Tile.Y t) (Tile.Z t)).
Proof.
  intros Hz. unfold tile_at, level_tile, maptile.Zoom_of_int. simpl.
  rewrite (to_uint32_small z Hz). repeat split.
  f_equal. rewrite <- (maptile_At_zoom (lon, lat) z) at 4.
  now destruct (maptile_At (lon, lat) z).
Qed.

Lemma stack_zooms lon lat start len :
  0 <= start -> start + Z.of_nat len <= 2 ^ 32 ->
  map Tile.Z (map (tile_at lon lat) (Zseq start len)) = Zseq start len.
Proof.
  intros Hs Hl. rewrite map_map. rewrite <- (map_id (Zseq start len)) at 2.
  apply map_ext_in. intros k Hk. apply Zseq_In in Hk.
  apply tile_at_fields. lia.
Qed.

Lemma indexed_levels r :
  indexed r ->
  exists lon lat, Levels r = map (tile_at lon lat) (Zseq minZoom 14).
Proof.
  intros [r0 Hr0].
  destruct (le_lt_dec 2 (List.length (GeoPoint.Coordinates (Location r0))))
    as [Hlen|Hlen].
  - destruct (two_coordinates _ Hlen) as (lon & lat & H0 & H1).
    rewrite (SetLevels_ok r0 lon lat H0 H1) in Hr0.
    injection Hr0 as <-. now exists lon, lat.
  - rewrite (SetLevels_short_panics r0 Hlen) in Hr0. discriminate.
Qed.

(** C1. For a point with both coordinates, [SetLevels] returns a stack of
    [maxZoom - minZoom + 1] entries, strictly increasing in [z] (the zooms
    [minZoom], [minZoom + 1], ... in order); the [(x, y)] of each entry is
    the tile [maptile.At] gives for the point at the entry's [z], and its key
    is the formatting of that [x], [y], [z]: the three decimal numerals, in
    that order, with ["-"] between them. *)
Theorem SetLevels_stack (r : Record_) (lon lat : float64) :
  nth_error (GeoPoint.Coordinates (Location r)) 0 = Some lon ->
  nth_error (GeoPoint.Coordinates (Location r)) 1 = Some lat ->
  exists levels,
    SetLevels r = Ok {| ID := ID r; Location := Location r; Levels := levels |} /\
    Z.of_nat (List.length levels) = maxZoom - minZoom + 1 /\
    StronglySorted Z.lt (map Tile.Z levels) /\
    (forall i, (i < List.length levels)%nat ->
       exists t, nth_error levels i = Some t /\ Tile.Z t = minZoom + Z.of_nat i) /\
    Forall (fun t =>
              Tile.X t = maptile.X (maptile_At (lon, lat) (Tile.Z t)) /\
              Tile.Y t = maptile.Y (maptile_At (lon, lat) (Tile.Z t)) /\
              Tile.Key t = Sprintf_key (Tile.X t) (Tile.Y t) (Tile.Z t))
           levels /\
    (uint32_valued lib ->
     Forall (fun t =>
               Tile.Key t =
               (decimal (Tile.X t) ++ "-" ++ decimal (Tile.Y t) ++ "-" ++
                decimal (Tile.Z t))%string)
            levels).
Proof.
  intros H0 H1. eexists. split; [apply (SetLevels_ok r lon lat H0 H1)|].
  split; [reflexivity|]. split; [|split; [|split]].
  - rewrite stack_zooms by (unfold minZoom; simpl; lia). apply Zseq_sorted.
  - intros i Hi. rewrite length_map, Zseq_length in Hi.
    rewrite nth_error_map, (Zseq_nth_error _ _ _ Hi). simpl.
    eexists. split; [reflexivity|].
    apply tile_at_fields. unfold minZoom. lia.
  - apply Forall_map, Forall_forall. intros k Hk. apply Zseq_In in Hk.
    unfold minZoom in Hk.
    destruct (tile_at_fields lon lat k) as (Hz & Hx & Hy & Hkey & _); [lia|].
    rewrite Hz. auto.
  - intros Hlib. apply Forall_map, Forall_forall. intros k Hk.
    apply Zseq_In in Hk. unfold minZoom in Hk.
    destruct (tile_at_fields lon lat k) as (Hz & Hx & Hy & Hkey & _); [lia|].
    destruct (Hlib (lon, lat) k) as [HX HY].
    rewrite Hkey. apply Sprintf_key_text; [rewrite Hx | rewrite Hy | rewrite Hz];
      auto; lia.
Qed.


(** C8. The stack depends on the two coordinates of the point only: two
    records with the same longitude and latitude, whatever their identifiers,
    previous levels, point type or further coordinates, get the same stack,
    entry by entry. In particular every record located at (-73.99, 40.73)
    gets, at position 12, the entry of zoom 12 holding the one pair [(x, y)]
    of [maptile.At] for that point. *)
Theorem SetLevels_deterministic (r1 r2 : Record_) (lon lat : float64) :
  nth_error (GeoPoint.Coordinates (Location r1)) 0 = Some lon ->
  nth_error (GeoPoint.Coordinates (Location r1)) 1 = Some lat ->
  nth_error (GeoPoint.Coordinates (Location r2)) 0 = Some lon ->
  nth_error (GeoPoint.Coordinates (Location r2)) 1 = Some lat ->
  (exists levels,
     SetLevels r1 =
       Ok {| ID := ID r1; Location := Location r1; Levels := levels |} /\
     SetLevels r2 =
       Ok {| ID := ID r2; Location := Location r2; Levels := levels |}) /\
  (lon = (-73.99)%float -> lat = 40.73%float ->
   exists x y,
     (x, y) = (maptile.X (maptile_At ((-73.99)%float, 40.73%float) 12),
               maptile.Y (maptile_At ((-73.99)%float, 40.73%float) 12)) /\
     forall r, r = r1 \/ r = r2 ->
       exists r' t,
         SetLevels r = Ok r' /\ nth_error (Levels r') 12 = Some t /\
         Tile.Z t = 12 /\ Tile.X t = x /\ Tile.Y t = y).
Proof.
  intros H0 H1 H0' H1'. split.
  - eexists. split; [apply (SetLevels_ok r1 lon lat H0 H1)|].
    apply (SetLevels_ok r2 lon lat H0' H1').
  - intros -> ->. do 2 eexists. split; [reflexivity|].
    intros r [-> | ->]; do 2 eexists;
      (split; [eapply SetLevels_ok; eassumption|]);
      (split; [reflexivity|]); repeat split.
Qed.

(** C9. For a record whose [Location.Coordinates] has at least two elements,
    the two reads of [SetLevels] (indices 0 and 1) are in bounds, and the call
    returns, without a panic, a stack with one entry for each of the 14 zooms
    of the range. *)
Theorem SetLevels_reads_in_bounds (r : Record_) :
  (2 <= List.length (GeoPoint.Coordinates (Location r)))%nat ->
  (exists lon lat,
      index (GeoPoint.Coordinates (Location r)) 0 = Ok lon /\
      index (GeoPoint.Coordinates (Location r)) 1 = Ok lat) /\
  exists levels,
    SetLevels r = Ok {| ID := ID r; Location := Location r; Levels := levels |} /\
    Z.of_nat (List.length levels) = maxZoom - minZoom + 1 /\
    map Tile.Z levels = Zseq minZoom 14.
Proof.
  intros Hlen. destruct (two_coordinates _ Hlen) as (lon & lat & H0 & H1).
  split.
  - exists lon, lat. unfold index. now rewrite H0, H1.
  - eexists. split; [apply (SetLevels_ok r lon lat H0 H1)|].
    split; reflexivity.
Qed.


(** ** [Tile.Center] *)

(** C10. [Tile.Center] changes no field but the cached projection: [X],
    [Y], [Z] and [Key] are kept. When the cache is unset or holds the
    projection of the tile's own [(X, Y, Z)], the result is the centre of
    [maptile.New(X, Y, Z)], the cache holds that projection afterwards, and a
    second call returns the same result. Every tile of a stack built by
    [SetLevels] has such a cache. *)
Theorem Center_frame (t : Tile.t) :
  (Tile.X (snd (Center t)) = Tile.X t /\
   Tile.Y (snd (Center t)) = Tile.Y t /\
   Tile.Z (snd (Center t)) = Tile.Z t /\
   Tile.Key (snd (Center t)) = Tile.Key t) /\
  (Tile.orbmaptile t = None \/
   Tile.orbmaptile t = Some (maptile.New (Tile.X t) (Tile.Y t) (Tile.Z t)) ->
   fst (Center t) = maptile_Center (maptile.New (Tile.X t) (Tile.Y t) (Tile.Z t)) /\
   Tile.orbmaptile (snd (Center t)) =
     Some (maptile.New (Tile.X t) (Tile.Y t) (Tile.Z t)) /\
   fst (Center (snd (Center t))) = fst (Center t)) /\
  (forall r r', SetLevels r = Ok r' -> In t (Levels r') ->
   Tile.orbmaptile t = Some (maptile.New (Tile.X t) (Tile.Y t) (Tile.Z t))).
Proof.
  split; [|split].
  - unfold Center. destruct (Tile.orbmaptile t); simpl; auto.
  - unfold Center. intros [Hc | Hc]; rewrite Hc; simpl; auto.
    rewrite Hc. auto.
  - intros r r' Hr Ht.
    destruct (indexed_levels r' (ex_intro _ r Hr)) as (lon & lat & Hl).
    rewrite Hl in Ht. apply in_map_iff in Ht as (k & <- & Hk).
    apply Zseq_In in Hk. unfold minZoom in Hk.
    apply tile_at_fields. lia.
Qed.

End Indexer.

(** ** Tile keys: formatting, splitting and parsing *)

Lemma digit_char_code d :
  0 <= d <= 9 -> Z.of_nat (nat_of_ascii (digit_char d)) = 48 + d.
Proof.
  intros Hd. unfold digit_char. rewrite nat_ascii_embedding by lia. lia.
Qed.

Lemma fmt_digits_all_digits fuel : forall u acc,
  0 <= u -> all_digits acc -> all_digits (fmt_digits fuel u acc).
Proof.
  induction fuel as [|fuel IH]; intros u acc Hu Hacc; simpl; [assumption|].
  assert (Hd : is_digit (digit_char (u mod 10))).
  { unfold is_digit. rewrite digit_char_code; pose proof (Z.mod_pos_bound u 10); lia. }
  destruct (u <? 10).
  - simpl. auto.
  - apply IH; [apply Z.div_pos; lia | simpl; auto].
Qed.

Lemma fmt_digits_grows fuel : forall u c acc,
  fmt_digits fuel u (String c acc) <> EmptyString.
Proof.
  induction fuel as [|fuel IH]; intros u c acc; simpl; [discriminate|].
  destruct (u <? 10); [discriminate | apply IH].
Qed.

Lemma fmt_uint_digits u : 0 <= u -> all_digits (fmt_uint u).
Proof. intros Hu. apply fmt_digits_all_digits; simpl; auto. Qed.

Lemma fmt_digits_nonempty fuel u acc :
  fmt_digits (S fuel) u acc <> EmptyString.
Proof.
  simpl. destruct (u <? 10); [discriminate | apply fmt_digits_grows].
Qed.

Lemma fmt_uint_nonempty u : fmt_uint u <> EmptyString.
Proof. apply fmt_digits_nonempty. Qed.

Lemma is_digit_not_minus c : is_digit c -> Ascii.eqb c "-" = false.
Proof.
  intros Hc. apply Ascii.eqb_neq. intros ->. unfold is_digit in Hc. simpl in Hc. lia.
Qed.

Lemma is_digit_not_plus c : is_digit c -> Ascii.eqb c "+" = false.
Proof.
  intros Hc. apply Ascii.eqb_neq. intros ->. unfold is_digit in Hc. simpl in Hc. lia.
Qed.

(** A run of digits is one piece. *)
Lemma Split_digits s : all_digits s -> Split s "-" = [s].
Proof.
  induction s as [|c s IH]; simpl; [reflexivity|].
  intros [Hc Hs]. rewrite (is_digit_not_minus c Hc), (IH Hs). reflexivity.
Qed.

(** A run of digits in front of a separator is the first piece. *)
Lemma Split_digits_sep s rest :
  all_digits s ->
  Split (s ++ String "-" rest) "-" = s :: Split rest "-".
Proof.
  induction s as [|c s IH]; simpl; [reflexivity|].
  intros [Hc Hs]. rewrite (is_digit_not_minus c Hc), (IH Hs). reflexivity.
Qed.

Lemma ParseUint_loop_String c s n :
  ParseUint_loop (String c s) n =
  let b := Z.of_nat (nat_of_ascii c) in
  if (48 <=? b) && (b <=? 57) then
    if maxUint64 / 10 + 1 <=? n then (maxUint64, Some ErrRange)
    else if maxUint64 <? n * 10 + (b - 48) then (maxUint64, Some ErrRange)
         else ParseUint_loop s (n * 10 + (b - 48))
  else (0, Some ErrSyntax).
Proof. reflexivity. Qed.

Lemma maxUint64_value : maxUint64 = 18446744073709551615.
Proof. reflexivity. Qed.

Lemma maxUint64_cutoff : maxUint64 / 10 + 1 = 1844674407370955162.
Proof. reflexivity. Qed.

(** Reading back the digits written for [u]. *)
Lemma ParseUint_loop_fmt_digits fuel : forall u rest,
  0 <= u < 10 ^ Z.of_nat fuel -> u <= maxUint64 ->
  ParseUint_loop (fmt_digits fuel u rest) 0 = ParseUint_loop rest u.
Proof.
  induction fuel as [|fuel IH]; intros u rest Hu Hmax.
  - simpl in *. replace u with 0 by lia. reflexivity.
  - assert (Hcode : Z.of_nat (nat_of_ascii (digit_char (u mod 10))) = 48 + u mod 10)
      by (apply digit_char_code; pose proof (Z.mod_pos_bound u 10); lia).
    assert (Hstep : forall n, 0 <= n -> n * 10 + u mod 10 <= maxUint64 ->
              ParseUint_loop (String (digit_char (u mod 10)) rest) n =
              ParseUint_loop rest (n * 10 + u mod 10)).
    { intros n Hn Hle. rewrite ParseUint_loop_String. cbv zeta. rewrite Hcode.
      pose proof (Z.mod_pos_bound u 10 ltac:(lia)) as Hm.
      replace ((48 <=? 48 + u mod 10) && (48 + u mod 10 <=? 57)) with true
        by (symmetry; apply andb_true_iff; split; apply Z.leb_le; lia).
      replace (48 + u mod 10 - 48) with (u mod 10) by lia.
      rewrite maxUint64_cutoff. rewrite maxUint64_value in *.
      destruct (Z.leb_spec 1844674407370955162 n) as [Hc|Hc]; [lia|].
      destruct (Z.ltb_spec 18446744073709551615 (n * 10 + u mod 10));
        [lia | reflexivity]. }
    cbn [fmt_digits]. destruct (Z.ltb_spec u 10) as [Hlt|Hge].
    + rewrite Hstep by (rewrite ?Z.mod_small; unfold maxUint64 in *; lia).
      rewrite Z.mod_small by lia. reflexivity.
    + pose proof (Z.div_mod u 10 ltac:(lia)) as Hdm.
      rewrite IH.
      * rewrite Hstep by (try apply Z.div_pos; lia). f_equal. lia.
      * split; [apply Z.div_pos; lia|].
        apply Z.div_lt_upper_bound; [lia|].
        rewrite Nat2Z.inj_succ, Z.pow_succ_r in Hu by lia. lia.
      * pose proof (Z.div_pos u 10). lia.
Qed.

Lemma ParseUint_fmt_uint u :
  0 <= u <= maxUint64 -> ParseUint (fmt_uint u) = (u, None).
Proof.
  intros Hu. unfold ParseUint.
  pose proof (fmt_uint_nonempty u) as Hne.
  destruct (fmt_uint u) as [|c s'] eqn:E; [congruence|]. rewrite <- E.
  unfold fmt_uint. rewrite ParseUint_loop_fmt_digits; [reflexivity | | lia].
  unfold maxUint64 in Hu. simpl. lia.
Qed.

(** The decimal form of a non-negative [int64] parses back, without error. *)
Lemma ParseInt_fmt_uint u :
  0 <= u < 2 ^ 63 -> ParseInt (fmt_uint u) = (u, None).
Proof.
  intros Hu. unfold ParseInt.
  pose proof (fmt_uint_nonempty u) as Hne.
  pose proof (fmt_uint_digits u ltac:(lia)) as Hd.
  pose proof (ParseUint_fmt_uint u) as Hp.
  destruct (fmt_uint u) as [|c s'] eqn:E; [congruence|].
  destruct Hd as [Hc _].
  rewrite (is_digit_not_minus c Hc), (is_digit_not_plus c Hc). simpl orb.
  cbv iota. rewrite Hp by (unfold maxUint64; lia). simpl negb. cbv iota.
  destruct (Z.leb_spec (2 ^ 63) u); [lia|]. reflexivity.
Qed.

Lemma fmt_int_nonneg z : 0 <= z -> fmt_int z = fmt_uint z.
Proof. intros Hz. unfold fmt_int. destruct (Z.ltb_spec z 0); [lia | reflexivity]. Qed.

Lemma Split_key x y z :
  0 <= x -> 0 <= y -> 0 <= z ->
  Split (Sprintf_key x y z) "-" = [fmt_uint x; fmt_uint y; fmt_int z].
Proof.
  intros Hx Hy Hz. unfold Sprintf_key.
  rewrite fmt_int_nonneg by assumption.
  change (fmt_uint x ++ "-" ++ fmt_uint y ++ "-" ++ fmt_uint z)%string
    with (fmt_uint x ++ String "-" (fmt_uint y ++ String "-" (fmt_uint z)))%string.
  rewrite !Split_digits_sep, Split_digits by now apply fmt_uint_digits.
  reflexivity.
Qed.

(** Decoding a generated key. *)
Lemma obrMapTile_of_key_Sprintf_key x y z :
  0 <= x < 2 ^ 32 -> 0 <= y < 2 ^ 32 -> 0 <= z < 2 ^ 32 ->
  obrMapTile_of_key (Sprintf_key x y z) = Ok (maptile.New x y z).
Proof.
  intros Hx Hy Hz. unfold obrMapTile_of_key.
  rewrite Split_key by lia. unfold index. simpl nth_error. simpl bind.
  rewrite fmt_int_nonneg by lia.
  rewrite !ParseInt_fmt_uint by lia. simpl fst.
  unfold maptile.Zoom_of_int. rewrite !to_uint32_small by lia. reflexivity.
Qed.

(** C4. The key is a lossless encoding of a tile coordinate. For every
    [x], [y], [z] of the [uint32] range (so for every tile with
    [0 <= x, y < 2^z]): splitting the key on the separator gives the three
    formatted numbers, each parses back without error, the decoding of
    [FromRawStatsToGeoJSONFeatureItem] rebuilds exactly the tile [(x, y, z)];
    and two coordinates with the same key are equal, also across zooms. *)
Theorem Sprintf_key_lossless (x y z : Z) :
  0 <= x < 2 ^ 32 -> 0 <= y < 2 ^ 32 -> 0 <= z < 2 ^ 32 ->
  Split (Sprintf_key x y z) "-" = [fmt_uint x; fmt_uint y; fmt_int z] /\
  ParseInt (fmt_uint x) = (x, None) /\
  ParseInt (fmt_uint y) = (y, None) /\
  ParseInt (fmt_int z) = (z, None) /\
  obrMapTile_of_key (Sprintf_key x y z) = Ok (maptile.New x y z) /\
  (forall x' y' z',
     0 <= x' < 2 ^ 32 -> 0 <= y' < 2 ^ 32 -> 0 <= z' < 2 ^ 32 ->
     Sprintf_key x y z = Sprintf_key x' y' z' ->
     x = x' /\ y = y' /\ z = z').
Proof.
  intros Hx Hy Hz.
  split; [apply Split_key; lia|].
  split; [apply ParseInt_fmt_uint; lia|].
  split; [apply ParseInt_fmt_uint; lia|].
  split; [rewrite fmt_int_nonneg by lia; apply ParseInt_fmt_uint; lia|].
  split; [now apply obrMapTile_of_key_Sprintf_key|].
  intros x' y' z' Hx' Hy' Hz' Hkey.
  pose proof (obrMapTile_of_key_Sprintf_key x y z Hx Hy Hz) as H1.
  pose proof (obrMapTile_of_key_Sprintf_key x' y' z' Hx' Hy' Hz') as H2.
  rewrite Hkey, H2 in H1. injection H1 as -> -> ->. auto.
Qed.

(** ** Aggregation *)

Section Aggregation.
Context {lib : MapTileLib}.

(** *** Grouping *)

Lemma group_add_sum k groups :
  sum_counts (group_add k groups) = sum_counts groups + 1.
Proof.
  induction groups as [|g gs IH]; simpl; [reflexivity|].
  destruct (String.eqb (RawStats.ID g) k); simpl; lia.
Qed.

Lemma group_add_count k k' groups :
  group_count k' (group_add k groups) =
  group_count k' groups + (if String.eqb k k' then 1 else 0).
Proof.
  induction groups as [|g gs IH]; simpl.
  - destruct (String.eqb k k'); reflexivity.
  - destruct (String.eqb_spec (RawStats.ID g) k) as [Hgk|Hgk]; simpl.
    + rewrite Hgk. destruct (String.eqb k k'); lia.
    + destruct (String.eqb_spec (RawStats.ID g) k') as [Hgk'|Hgk'].
      * destruct (String.eqb_spec k k'); [congruence | lia].
      * apply IH.
Qed.

Lemma group_add_keys k k' groups :
  In k' (map RawStats.ID (group_add k groups)) <->
  k' = k \/ In k' (map RawStats.ID groups).
Proof.
  induction groups as [|g gs IH]; simpl; [intuition|].
  destruct (String.eqb_spec (RawStats.ID g) k) as [Hgk|Hgk]; simpl.
  - rewrite Hgk. intuition.
  - rewrite IH. intuition.
Qed.

Lemma group_add_NoDup k groups :
  NoDup (map RawStats.ID groups) ->
  NoDup (map RawStats.ID (group_add k groups)).
Proof.
  induction groups as [|g gs IH]; simpl; intros Hnd.
  - constructor; [simpl; tauto | constructor].
  - inversion Hnd as [|? ? Hnotin Hnd']; subst.
    destruct (String.eqb_spec (RawStats.ID g) k) as [Hgk|Hgk]; simpl.
    + constructor; assumption.
    + constructor; [|apply IH; assumption].
      rewrite group_add_keys. intros [Heq | Hin]; [congruence | contradiction].
Qed.

Lemma group_count_In g groups :
  NoDup (map RawStats.ID groups) -> In g groups ->
  group_count (RawStats.ID g) groups = RawStats.Count g.
Proof.
  induction groups as [|g0 gs IH]; simpl; intros Hnd Hin; [contradiction|].
  inversion Hnd as [|? ? Hnotin Hnd']; subst.
  destruct Hin as [-> | Hin].
  - now rewrite String.eqb_refl.
  - destruct (String.eqb_spec (RawStats.ID g0) (RawStats.ID g)) as [Heq|Hneq].
    + exfalso. apply Hnotin. rewrite Heq. now apply in_map.
    + now apply IH.
Qed.

(** The groups after the documents [docs], from the groups [acc]. *)
Lemma group_fold (docs : list (Record_ * Tile.t)) : forall acc,
  let groups :=
    fold_left (fun groups d => group_add (Tile.Key (snd d)) groups) docs acc in
  sum_counts groups = sum_counts acc + Z.of_nat (List.length docs) /\
  (NoDup (map RawStats.ID acc) -> NoDup (map RawStats.ID groups)) /\
  (forall k, group_count k groups =
             group_count k acc +
             Z.of_nat (List.length
                         (filter (fun d => String.eqb (Tile.Key (snd d)) k) docs))) /\
  (forall k, In k (map RawStats.ID groups) <->
             In k (map RawStats.ID acc) \/
             exists d, In d docs /\ Tile.Key (snd d) = k).
Proof.
  induction docs as [|d docs IH]; intros acc; simpl.
  - split; [lia|]. split; [auto|]. split; [intros k; lia|].
    intros k. split; [now left|].
    intros [H | (d & [] & _)]; assumption.
  - destruct (IH (group_add (Tile.Key (snd d)) acc)) as (Hs & Hn & Hc & Hk).
    split; [rewrite Hs, group_add_sum; lia|].
    split; [intros Hnd; apply Hn, group_add_NoDup, Hnd|].
    split.
    + intros k. rewrite Hc, group_add_count.
      destruct (String.eqb (Tile.Key (snd d)) k); simpl List.length; lia.
    + intros k. rewrite Hk, group_add_keys. split.
      * intros [[-> | H] | (d' & Hd' & Hkey)].
        -- right. exists d. auto.
        -- now left.
        -- right. exists d'. auto.
      * intros [H | (d' & [<- | Hd'] & Hkey)]; auto.
        right. exists d'. auto.
Qed.

(** *** The documents that reach the grouping stage *)

Lemma pipeline_docs level (stored : list Record_) :
  match_level_z level (unwind_levels (match_levels_z level stored)) =
  flat_map (fun r => map (fun t => (r, t))
                         (filter (fun t => Tile.Z t =? level) (Levels r)))
           stored.
Proof.
  unfold match_level_z, unwind_levels, match_levels_z.
  induction stored as [|r rs IH]; simpl; [reflexivity|].
  assert (Hf : forall l : list Tile.t,
             filter (fun d : Record_ * Tile.t => Tile.Z (snd d) =? level)
                    (map (fun t => (r, t)) l) =
             map (fun t => (r, t)) (filter (fun t => Tile.Z t =? level) l)).
  { induction l as [|t l IHl]; simpl; [reflexivity|].
    destruct (Tile.Z t =? level); simpl; now rewrite IHl. }
  destruct (existsb (fun t => Tile.Z t =? level) (Levels r)) eqn:E; simpl.
  - now rewrite filter_app, Hf, IH.
  - rewrite IH. f_equal.
    replace (filter (fun t => Tile.Z t =? level) (Levels r)) with (@nil Tile.t);
      [reflexivity|].
    symmetry. induction (Levels r) as [|t l IHl]; simpl in *; [reflexivity|].
    apply orb_false_iff in E as [-> E]. auto.
Qed.

Lemma existsb_filter {A : Type} (p q : A -> bool) (l : list A) :
  existsb (fun a => p a && q a) l = existsb q (filter p l).
Proof.
  induction l as [|a l IH]; simpl; [reflexivity|].
  destruct (p a); simpl; now rewrite IH.
Qed.

Lemma existsb_nonempty {A : Type} (p : A -> bool) (l : list A) :
  existsb p l = match filter p l with [] => false | _ :: _ => true end.
Proof.
  induction l as [|a l IH]; simpl; [reflexivity|].
  destruct (p a); simpl; [reflexivity | apply IH].
Qed.

(** Among tiles of pairwise distinct zooms at most one has a given zoom. *)
Lemma one_tile_at_zoom level (levels : list Tile.t) :
  NoDup (map Tile.Z levels) ->
  (List.length (filter (fun t => (Tile.Z t =? level)%Z) levels) <= 1)%nat.
Proof.
  induction levels as [|t l IH]; simpl; intros Hnd; [lia|].
  inversion Hnd as [|? ? Hnotin Hnd']; subst.
  destruct (Z.eqb_spec (Tile.Z t) level) as [Hz|Hz]; [|auto].
  replace (filter (fun t0 => Tile.Z t0 =? level) l) with (@nil Tile.t);
    [simpl; lia|].
  symmetry.
  clear IH Hnd Hnd'. induction l as [|t' l IHl]; simpl in *; [reflexivity|].
  destruct (Z.eqb_spec (Tile.Z t') level) as [Hz'|Hz'].
  - exfalso. apply Hnotin. left. congruence.
  - apply IHl. tauto.
Qed.

Lemma indexed_one_tile_per_zoom r :
  indexed r -> NoDup (map Tile.Z (Levels r)).
Proof.
  intros Hr. destruct (indexed_levels r Hr) as (lon & lat & ->).
  rewrite stack_zooms by (unfold minZoom; simpl; lia). apply Zseq_NoDup.
Qed.

(** What the records contribute to the grouping stage, for records with at
    most one tile per zoom. *)
Lemma pipeline_counts level (stored : list Record_) :
  Forall (fun r => NoDup (map Tile.Z (Levels r))) stored ->
  let docs :=
    match_level_z level (unwind_levels (match_levels_z level stored)) in
  List.length docs = List.length (filter (has_membership level) stored) /\
  forall k,
    List.length (filter (fun d => String.eqb (Tile.Key (snd d)) k) docs) =
    List.length (filter (has_membership_key level k) stored).
Proof.
  intros Hall. cbv zeta. rewrite pipeline_docs.
  induction Hall as [|r rs Hr Hrs IH]; simpl; [auto|].
  destruct IH as [IHlen IHkey].
  pose proof (one_tile_at_zoom level (Levels r) Hr) as Hone.
  unfold has_membership, has_membership_key in *.
  split; [|intros k; rewrite existsb_filter];
    [rewrite existsb_nonempty|];
    destruct (filter (fun t => Tile.Z t =? level) (Levels r)) as [|t [|t' F]];
    simpl in Hone; try lia; simpl.
  - apply IHlen.
  - now rewrite IHlen.
  - apply IHkey.
  - rewrite orb_false_r. destruct (String.eqb (Tile.Key t) k); simpl;
      now rewrite IHkey.
Qed.

Lemma filter_nonempty {A : Type} (p : A -> bool) (l : list A) :
  (0 < List.length (filter p l))%nat <-> exists a, In a l /\ p a = true.
Proof.
  split.
  - destruct (filter p l) as [|a l'] eqn:E; simpl; [lia|]. intros _.
    exists a. apply filter_In. rewrite E. now left.
  - intros (a & Ha & Hp).
    assert (Hin : In a (filter p l)) by (apply filter_In; auto).
    destruct (filter p l); [contradiction | simpl; lia].
Qed.

(** C2. At a fixed zoom, over stored records that the indexer produced, the
    aggregation gives one group per distinct tile key met at that zoom (the
    keys of the groups are pairwise distinct and are exactly the keys under
    which some record has a membership at the zoom); the count of a group is
    the number of records with a membership at the zoom under its key; and
    the counts add up to the number of records with a membership at the
    zoom, so no record is counted twice. *)
Theorem Aggregate_count_conservation (stored : list Record_) (level : Z) :
  Forall indexed stored ->
  let groups := Aggregate stored level in
  NoDup (map RawStats.ID groups) /\
  (forall k, In k (map RawStats.ID groups) <->
             exists r, In r stored /\ has_membership_key level k r = true) /\
  (forall g, In g groups ->
             RawStats.Count g =
             Z.of_nat (List.length
                         (filter (has_membership_key level (RawStats.ID g)) stored))) /\
  sum_counts groups =
  Z.of_nat (List.length (filter (has_membership level) stored)).
Proof.
  intros Hall. cbv zeta. unfold Aggregate, group_by_key.
  assert (Hnd : Forall (fun r => NoDup (map Tile.Z (Levels r))) stored).
  { eapply Forall_impl; [|exact Hall]. apply indexed_one_tile_per_zoom. }
  destruct (pipeline_counts level stored Hnd) as [Hlen Hkeys].
  destruct (group_fold
              (match_level_z level (unwind_levels (match_levels_z level stored)))
              []) as (Hs & Hn & Hc & Hk).
  assert (Hcount : forall k,
    group_count k
      (fold_left (fun groups d => group_add (Tile.Key (snd d)) groups)
         (match_level_z level (unwind_levels (match_levels_z level stored))) []) =
    Z.of_nat (List.length (filter (has_membership_key level k) stored))).
  { intros k. rewrite Hc, Hkeys. simpl. lia. }
  split; [apply Hn; constructor|]. split; [|split].
  - intros k. rewrite Hk. simpl. split.
    + intros [[] | (d & Hd & Hkey)].
      apply filter_nonempty. rewrite <- Hkeys.
      apply filter_nonempty. exists d. split; [assumption|].
      rewrite Hkey. apply String.eqb_refl.
    + intros Hex. right. apply filter_nonempty in Hex. rewrite <- Hkeys in Hex.
      apply filter_nonempty in Hex as (d & Hd & Hkey).
      exists d. split; [assumption|]. now apply String.eqb_eq.
  - intros g Hg. rewrite <- Hcount.
    symmetry. apply group_count_In; [apply Hn; constructor | assumption].
  - rewrite Hs, Hlen. simpl. lia.
Qed.

End Aggregation.

(** ** Failure modes *)

Section Failures.
Context {lib : MapTileLib} {enc : JSONEncoder}.

(** C5, as the code has it. [SetLevels] validates nothing and has no
    coordinate error: on a point with at least two coordinates, whatever
    their values, it returns the complete stack, holding what [maptile.At]
    returns; its one failure is the panic of the first iteration on a point
    with fewer than two coordinates, before any tile is appended. *)
Theorem SetLevels_all_or_nothing (r : Record_) :
  SetLevels r =
  match GeoPoint.Coordinates (Location r) with
  | lon :: lat :: _ =>
      Ok {| ID := ID r; Location := Location r;
            Levels := map (tile_at lon lat) (Zseq minZoom 14) |}
  | coords =>
      Panic (IndexOutOfRange (List.length coords) (List.length coords))
  end.
Proof.
  destruct (GeoPoint.Coordinates (Location r)) as [|lon [|lat rest]] eqn:E.
  - rewrite SetLevels_short_panics; rewrite E; simpl; [reflexivity | lia].
  - rewrite SetLevels_short_panics; rewrite E; simpl; [reflexivity | lia].
  - apply SetLevels_ok; rewrite E; reflexivity.
Qed.

(** *** Decoding keys *)









End Failures.

(** ** The program on inputs *)

Lemma linear_tiling_uint32 : uint32_valued linear_tiling.
Proof.
  intros ll z. unfold maptile_At, linear_tiling, linear_At, to_uint32. simpl.
  split; apply Z.mod_pos_bound; reflexivity.
Defined.

Lemma new_york_indexed :
  @SetLevels linear_tiling (record_of new_york) = Ok (indexed_record new_york).
Proof. vm_compute. reflexivity. Defined.


(** The stack of New York under the linear tiling, at zoom 12. *)
Example new_york_zoom_12 :
  nth_error (Levels (indexed_record new_york)) 12 =
  Some (Tile.mk 1206 1121 12 "1206-1121-12" (Some (maptile.New 1206 1121 12))).
Proof. vm_compute. reflexivity. Qed.

(** Three records at one point and one elsewhere: two groups, 3 and 1. *)
Example sample_store_zoom_12 :
  @Aggregate sample_store 12 =
  [RawStats.mk "1206-1121-12" 3; RawStats.mk "1239-1084-12" 1].
Proof. vm_compute. reflexivity. Qed.

Lemma sample_store_indexed : Forall (@indexed linear_tiling) sample_store.
Proof.
  repeat constructor;
    [exists (record_of new_york) | exists (record_of new_york)
    | exists (record_of new_york) | exists (record_of boston)];
    vm_compute; reflexivity.
Defined.

Lemma SetLevels_stack_witness :
  exists levels,
    @SetLevels linear_tiling (record_of new_york) =
    Ok {| ID := []; Location := new_york; Levels := levels |} /\
    Z.of_nat (List.length levels) = 14 /\
    StronglySorted Z.lt (map Tile.Z levels) /\
    (forall i, (i < List.length levels)%nat ->
       exists t, nth_error levels i = Some t /\ Tile.Z t = Z.of_nat i) /\
    Forall (fun t =>
              Tile.X t =
                maptile.X (linear_At ((-73.99)%float, 40.73%float) (Tile.Z t)) /\
              Tile.Y t =
                maptile.Y (linear_At ((-73.99)%float, 40.73%float) (Tile.Z t)) /\
              Tile.Key t = Sprintf_key (Tile.X t) (Tile.Y t) (Tile.Z t))
           levels /\
    Forall (fun t =>
              Tile.Key t =
              (decimal (Tile.X t) ++ "-" ++ decimal (Tile.Y t) ++ "-" ++
               decimal (Tile.Z t))%string)
           levels /\
    nth_error levels 12 =
    Some (Tile.mk 1206 1121 12 "1206-1121-12" (Some (maptile.New 1206 1121 12))).
Proof.
  destruct (@SetLevels_stack linear_tiling (record_of new_york)
              (-73.99)%float 40.73%float eq_refl eq_refl)
    as (levels & Hs & Hl & Hsorted & Hnth & Hxy & Hkey).
  exists levels.
  split; [exact Hs|]. split; [exact Hl|]. split; [exact Hsorted|].
  split; [exact Hnth|]. split; [exact Hxy|].
  split; [exact (Hkey linear_tiling_uint32)|].
  assert (Hlevels : Levels (indexed_record new_york) = levels).
  { pose proof (eq_trans (eq_sym new_york_indexed) Hs) as Heq.
    exact (f_equal (fun o => match o with
                             | Ok r => Levels r
                             | Panic _ => []
                             end) Heq). }
  rewrite <- Hlevels. vm_compute. reflexivity.
Defined.


Lemma Aggregate_count_conservation_witness :
  Forall (@indexed linear_tiling) sample_store /\
  sum_counts (Aggregate sample_store 12) =
  Z.of_nat (List.length (filter (has_membership 12) sample_store)).
Proof.
  split; [exact sample_store_indexed|].
  apply (@Aggregate_count_conservation linear_tiling sample_store 12
           sample_store_indexed).
Defined.

Lemma Sprintf_key_lossless_witness :
  (0 <= 1206 < 2 ^ 32 /\ 0 <= 1539 < 2 ^ 32 /\ 0 <= 12 < 2 ^ 32) /\
  obrMapTile_of_key (Sprintf_key 1206 1539 12) = Ok (maptile.New 1206 1539 12).
Proof.
  assert (H : 0 <= 1206 < 2 ^ 32 /\ 0 <= 1539 < 2 ^ 32 /\ 0 <= 12 < 2 ^ 32)
    by (repeat split; lia).
  split; [exact H|].
  destruct H as (Hx & Hy & Hz).
  exact (proj1 (proj2 (proj2 (proj2 (proj2
           (Sprintf_key_lossless 1206 1539 12 Hx Hy Hz)))))).
Defined.

Lemma SetLevels_deterministic_witness :
  (exists levels,
     @SetLevels linear_tiling (record_of new_york) =
     Ok {| ID := []; Location := new_york; Levels := levels |} /\
     @SetLevels linear_tiling other_new_york_record =
     Ok {| ID := ID other_new_york_record;
           Location := Location other_new_york_record;
           Levels := levels |}) /\
  exists x y,
    (x, y) = (1206, 1121) /\
    forall r, r = record_of new_york \/ r = other_new_york_record ->
      exists r' t,
        @SetLevels linear_tiling r = Ok r' /\
        nth_error (Levels r') 12 = Some t /\
        Tile.Z t = 12 /\ Tile.X t = x /\ Tile.Y t = y.
Proof.
  destruct (@SetLevels_deterministic linear_tiling
              (record_of new_york) other_new_york_record
              (-73.99)%float 40.73%float
              eq_refl eq_refl eq_refl eq_refl) as [Hsame Hny].
  split; [exact Hsame|].
  destruct (Hny eq_refl eq_refl) as (x & y & Hxy & Hruns).
  exists x, y. split; [|exact Hruns].
  exact (eq_trans Hxy eq_refl).
Defined.

Lemma SetLevels_reads_in_bounds_witness :
  (2 <= List.length (GeoPoint.Coordinates (Location (record_of new_york))))%nat /\
  exists levels,
    @SetLevels linear_tiling (record_of new_york) =
    Ok {| ID := []; Location := new_york; Levels := levels |} /\
    Z.of_nat (List.length levels) = 14.
Proof.
  split; [simpl; lia|].
  destruct (@SetLevels_reads_in_bounds linear_tiling (record_of new_york))
    as (_ & levels & Hs & Hl & _); [simpl; lia|].
  exists levels. split; assumption.
Defined.

Lemma Center_frame_witness :
  (Tile.orbmaptile (Tile.mk 1206 1121 12 "1206-1121-12" None) = None /\
   fst (@Center linear_tiling (Tile.mk 1206 1121 12 "1206-1121-12" None)) =
   linear_Center (maptile.New 1206 1121 12)) /\
  (@SetLevels linear_tiling (record_of new_york) =
     Ok (indexed_record new_york) /\
   In (Tile.mk 1206 1121 12 "1206-1121-12" (Some (maptile.New 1206 1121 12)))
      (Levels (indexed_record new_york)) /\
   fst (@Center linear_tiling
          (Tile.mk 1206 1121 12 "1206-1121-12"
             (Some (maptile.New 1206 1121 12)))) =
   linear_Center (maptile.New 1206 1121 12)).
Proof.
  split.
  - split; [reflexivity|].
    exact (proj1 (proj1 (proj2 (@Center_frame linear_tiling
             (Tile.mk 1206 1121 12 "1206-1121-12" None))) (or_introl eq_refl))).
  - assert (Hrun : @SetLevels linear_tiling (record_of new_york) =
                   Ok (indexed_record new_york)) by (vm_compute; reflexivity).
    assert (Hin : In (Tile.mk 1206 1121 12 "1206-1121-12"
                        (Some (maptile.New 1206 1121 12)))
                     (Levels (indexed_record new_york))).
    { apply (nth_error_In _ 12). vm_compute. reflexivity. }
    split; [exact Hrun|]. split; [exact Hin|].
    destruct (@Center_frame linear_tiling
                (Tile.mk 1206 1121 12 "1206-1121-12"
                   (Some (maptile.New 1206 1121 12)))) as (_ & Hcenter & Hcache).
    exact (proj1 (Hcenter (or_intror (Hcache _ _ Hrun Hin)))).
Defined.


(** ** Where the specification and the code part *)

(** The point (1000, 1000) is outside the valid range, and [SetLevels]
    returns its complete stack, whatever the library computes. *)
Lemma SetLevels_accepts_invalid_point :
  valid_coordinates 1000%float 1000%float = false /\
  forall lib : MapTileLib,
    @SetLevels lib (record_of far_away) =
    Ok {| ID := []; Location := far_away;
          Levels := map (@tile_at lib 1000%float 1000%float) (Zseq minZoom 14) |} /\
    List.length (map (@tile_at lib 1000%float 1000%float) (Zseq minZoom 14)) = 14%nat.
Proof.
  split; [reflexivity|]. intros lib. split; [|reflexivity].
  apply (@SetLevels_ok lib (record_of far_away)); reflexivity.
Qed.



(** * Further properties of the code *)

Section IndexerFacts.
Context {lib : MapTileLib}.

(** A tile of a stack is the tile of the record's point at its zoom. *)
Lemma indexed_tile r t :
  indexed r -> In t (Levels r) ->
  exists lon lat,
    nth_error (GeoPoint.Coordinates (Location r)) 0 = Some lon /\
    nth_error (GeoPoint.Coordinates (Location r)) 1 = Some lat /\
    minZoom <= Tile.Z t <= maxZoom /\
    t = tile_at lon lat (Tile.Z t).
Proof.
  intros [r0 Hr0] Ht.
  destruct (le_lt_dec 2 (List.length (GeoPoint.Coordinates (Location r0))))
    as [Hlen|Hlen].
  - destruct (two_coordinates _ Hlen) as (lon & lat & H0 & H1).
    rewrite (SetLevels_ok r0 lon lat H0 H1) in Hr0.
    assert (Hl : Levels r = map (tile_at lon lat) (Zseq minZoom 14))
      by now injection Hr0 as <-.
    assert (Hloc : Location r = Location r0) by now injection Hr0 as <-.
    rewrite Hl in Ht. rewrite Hloc. clear Hr0 Hl Hloc. exists lon, lat.
    apply in_map_iff in Ht as (k & <- & Hk). apply Zseq_In in Hk.
    unfold minZoom, maxZoom in *.
    destruct (tile_at_fields lon lat k) as (Hz & _); [lia|].
    rewrite Hz. repeat split; auto; lia.
  - rewrite (SetLevels_short_panics r0 Hlen) in Hr0. discriminate.
Qed.

(** X1. Indexing is idempotent: [SetLevels] on a record it returned returns
    that record again. The levels a record had before the call do not
    matter. *)
Theorem SetLevels_idempotent (r r' : Record_) :
  SetLevels r = Ok r' -> SetLevels r' = Ok r'.
Proof.
  intros Hr.
  destruct (le_lt_dec 2 (List.length (GeoPoint.Coordinates (Location r))))
    as [Hlen|Hlen].
  - destruct (two_coordinates _ Hlen) as (lon & lat & H0 & H1).
    rewrite (SetLevels_ok r lon lat H0 H1) in Hr. injection Hr as <-.
    exact (SetLevels_ok
             {| ID := ID r; Location := Location r;
                Levels := map (tile_at lon lat) (Zseq minZoom 14) |}
             lon lat H0 H1).
  - rewrite (SetLevels_short_panics r Hlen) in Hr. discriminate.
Qed.

(** The key written at zoom [z] decodes to the tile written with it. *)
Lemma tile_at_key_decodes lon lat z :
  uint32_valued lib -> 0 <= z < 2 ^ 32 ->
  obrMapTile_of_key (Tile.Key (tile_at lon lat z)) =
  Ok (maptile.New (Tile.X (tile_at lon lat z)) (Tile.Y (tile_at lon lat z))
                  (Tile.Z (tile_at lon lat z))).
Proof.
  intros Hlib Hz.
  destruct (tile_at_fields lon lat z Hz) as (HZ & Hx & Hy & Hkey & _).
  destruct (Hlib (lon, lat) z) as [HX HY].
  rewrite Hkey.
  apply obrMapTile_of_key_Sprintf_key; [rewrite Hx | rewrite Hy | rewrite HZ];
    assumption.
Qed.

(** X2. The key of every tile of a stack built by [SetLevels] decodes, by
    the decoding of [FromRawStatsToGeoJSONFeatureItem], to that tile's own
    [(X, Y, Z)]. *)
Theorem stack_keys_decode (r : Record_) (t : Tile.t) :
  uint32_valued lib ->
  indexed r -> In t (Levels r) ->
  obrMapTile_of_key (Tile.Key t) =
  Ok (maptile.New (Tile.X t) (Tile.Y t) (Tile.Z t)).
Proof.
  intros Hlib Hr Ht.
  destruct (indexed_tile r t Hr Ht) as (lon & lat & _ & _ & Hz & Heq).
  unfold minZoom, maxZoom in Hz. rewrite Heq.
  apply tile_at_key_decodes; [assumption | lia].
Qed.

(** X3. A key names one tile: two tiles of stacks built by [SetLevels], of
    the same record or not, of the same zoom or not, that have the same key
    have the same [X], [Y] and [Z]. *)
Theorem stack_keys_identify_tiles (r1 r2 : Record_) (t1 t2 : Tile.t) :
  uint32_valued lib ->
  indexed r1 -> In t1 (Levels r1) ->
  indexed r2 -> In t2 (Levels r2) ->
  Tile.Key t1 = Tile.Key t2 ->
  Tile.X t1 = Tile.X t2 /\ Tile.Y t1 = Tile.Y t2 /\ Tile.Z t1 = Tile.Z t2.
Proof.
  intros Hlib Hr1 Ht1 Hr2 Ht2 Hkey.
  destruct (indexed_tile r1 t1 Hr1 Ht1) as (lon1 & lat1 & _ & _ & Hz1 & Heq1).
  destruct (indexed_tile r2 t2 Hr2 Ht2) as (lon2 & lat2 & _ & _ & Hz2 & Heq2).
  unfold minZoom, maxZoom in *.
  pose proof (tile_at_key_decodes lon1 lat1 (Tile.Z t1) Hlib ltac:(lia)) as H1.
  pose proof (tile_at_key_decodes lon2 lat2 (Tile.Z t2) Hlib ltac:(lia)) as H2.
  rewrite <- Heq1 in H1. rewrite <- Heq2 in H2.
  rewrite Hkey, H2 in H1. injection H1 as -> -> ->. auto.
Qed.

(** X4. A second call of [Tile.Center] returns what the first returned and
    leaves the tile as the first left it, for every tile: after one call the
    cache is set and is never recomputed. *)
Theorem Center_stable (t : Tile.t) :
  Center (snd (Center t)) = (fst (Center t), snd (Center t)) /\
  Tile.orbmaptile (snd (Center t)) <> None.
Proof.
  unfold Center. destruct (Tile.orbmaptile t) as [p|] eqn:E; simpl.
  - rewrite E. split; [reflexivity | discriminate].
  - split; [reflexivity | discriminate].
Qed.

(** X5. On a tile of a stack built by [SetLevels], [Tile.Center] changes
    nothing at all, and returns the centre of the tile [maptile.At] gave for
    the record's point at the tile's zoom. *)
Theorem Center_of_stack_tile (r : Record_) (t : Tile.t) (lon lat : float64) :
  indexed r -> In t (Levels r) ->
  nth_error (GeoPoint.Coordinates (Location r)) 0 = Some lon ->
  nth_error (GeoPoint.Coordinates (Location r)) 1 = Some lat ->
  Center t = (maptile_Center (maptile_At (lon, lat) (Tile.Z t)), t).
Proof.
  intros Hr Ht H0 H1.
  destruct (indexed_tile r t Hr Ht) as (lon' & lat' & H0' & H1' & Hz & Heq).
  rewrite H0 in H0'. rewrite H1 in H1'.
  injection H0' as <-. injection H1' as <-.
  unfold minZoom, maxZoom in Hz.
  destruct (tile_at_fields lon lat (Tile.Z t)) as (HZ & _); [lia|].
  rewrite <- Heq in HZ.
  assert (Hc : Tile.orbmaptile t = Some (maptile_At (lon, lat) (Tile.Z t))).
  { rewrite Heq at 1. unfold tile_at, level_tile, maptile.Zoom_of_int. simpl.
    now rewrite to_uint32_small by lia. }
  unfold Center. now rewrite Hc.
Qed.

End IndexerFacts.

Section AggregationFacts.
Context {lib : MapTileLib} {enc : JSONEncoder}.

(** The tiles of the documents that reach the grouping stage. *)
Lemma pipeline_tiles level (stored : list Record_) :
  map snd (match_level_z level (unwind_levels (match_levels_z level stored))) =
  tiles_at level stored.
Proof.
  rewrite pipeline_docs. unfold tiles_at.
  induction stored as [|r rs IH]; simpl; [reflexivity|].
  rewrite map_app, filter_app, IH, map_map. simpl. now rewrite map_id.
Qed.

Lemma filter_key_map_snd k (docs : list (Record_ * Tile.t)) :
  List.length (filter (fun d => String.eqb (Tile.Key (snd d)) k) docs) =
  List.length (filter (fun t => String.eqb (Tile.Key t) k) (map snd docs)).
Proof.
  induction docs as [|d docs IH]; simpl; [reflexivity|].
  destruct (String.eqb (Tile.Key (snd d)) k); simpl; now rewrite IH.
Qed.

(** The count of key [k] after the aggregation, for any store. *)
Lemma Aggregate_group_count (stored : list Record_) level k :
  group_count k (Aggregate stored level) =
  Z.of_nat (List.length
              (filter (fun t => String.eqb (Tile.Key t) k) (tiles_at level stored))).
Proof.
  unfold Aggregate, group_by_key.
  destruct (group_fold
              (match_level_z level (unwind_levels (match_levels_z level stored)))
              []) as (_ & _ & Hc & _).
  rewrite Hc, filter_key_map_snd, pipeline_tiles. simpl. lia.
Qed.

Lemma Aggregate_keys (stored : list Record_) level k :
  In k (map RawStats.ID (Aggregate stored level)) <->
  exists t, In t (tiles_at level stored) /\ Tile.Key t = k.
Proof.
  unfold Aggregate, group_by_key.
  destruct (group_fold
              (match_level_z level (unwind_levels (match_levels_z level stored)))
              []) as (_ & _ & _ & Hk).
  rewrite Hk, <- pipeline_tiles. simpl. split.
  - intros [[] | (d & Hd & Hkey)]. exists (snd d). split; [|assumption].
    now apply in_map.
  - intros (t & Ht & Hkey). right. apply in_map_iff in Ht as (d & <- & Hd).
    now exists d.
Qed.

Lemma Aggregate_sum (stored : list Record_) level :
  sum_counts (Aggregate stored level) =
  Z.of_nat (List.length (tiles_at level stored)) /\
  NoDup (map RawStats.ID (Aggregate stored level)).
Proof.
  unfold Aggregate, group_by_key.
  destruct (group_fold
              (match_level_z level (unwind_levels (match_levels_z level stored)))
              []) as (Hs & Hn & _).
  split; [|apply Hn; constructor].
  rewrite Hs, <- pipeline_tiles, length_map. simpl. lia.
Qed.

(** X6. The first [$match] stage removes nothing that the later stages
    keep: the documents that reach the grouping stage are the same with and
    without it, and so is the count of every key. *)
Theorem first_match_redundant (stored : list Record_) (level : Z) :
  match_level_z level (unwind_levels (match_levels_z level stored)) =
  match_level_z level (unwind_levels stored) /\
  forall k,
    group_count k (Aggregate stored level) =
    group_count k (group_by_key (match_level_z level (unwind_levels stored))).
Proof.
  assert (Hdocs :
    match_level_z level (unwind_levels (match_levels_z level stored)) =
    match_level_z level (unwind_levels stored)).
  { rewrite pipeline_docs. unfold match_level_z, unwind_levels.
    induction stored as [|r rs IH]; simpl; [reflexivity|].
    rewrite filter_app, IH. f_equal.
    induction (Levels r) as [|t l IHl]; simpl; [reflexivity|].
    destruct (Tile.Z t =? level); simpl; now rewrite IHl. }
  split; [exact Hdocs|]. intros k. unfold Aggregate. now rewrite Hdocs.
Qed.

(** X7. What the aggregation counts, for any store: tiles, not records.
    The keys of the groups are pairwise distinct; the count of a group is
    the number of tiles of the store at the zoom that carry its key, and is
    at least 1; the counts add up to the number of tiles of the store at the
    zoom. A record with two tiles of one zoom is counted twice. *)
Theorem Aggregate_counts_tiles (stored : list Record_) (level : Z) :
  let groups := Aggregate stored level in
  NoDup (map RawStats.ID groups) /\
  (forall g, In g groups ->
     RawStats.Count g =
     Z.of_nat (List.length
                 (filter (fun t => String.eqb (Tile.Key t) (RawStats.ID g))
                         (tiles_at level stored))) /\
     1 <= RawStats.Count g) /\
  sum_counts groups = Z.of_nat (List.length (tiles_at level stored)).
Proof.
  cbv zeta.
  assert (Hnd : NoDup (map RawStats.ID (Aggregate stored level))).
  { unfold Aggregate, group_by_key.
    apply (group_fold
             (match_level_z level (unwind_levels (match_levels_z level stored)))
             []). constructor. }
  split; [exact Hnd|]. split.
  - intros g Hg.
    assert (Hc : RawStats.Count g =
                 Z.of_nat (List.length
                   (filter (fun t => String.eqb (Tile.Key t) (RawStats.ID g))
                           (tiles_at level stored)))).
    { rewrite <- Aggregate_group_count. symmetry.
      now apply group_count_In. }
    split; [exact Hc|]. rewrite Hc.
    assert (Hk : In (RawStats.ID g) (map RawStats.ID (Aggregate stored level)))
      by now apply in_map.
    apply Aggregate_keys in Hk as (t & Ht & Hkey).
    assert (Hpos : (0 < List.length
                      (filter (fun t => String.eqb (Tile.Key t) (RawStats.ID g))
                              (tiles_at level stored)))%nat).
    { apply filter_nonempty. exists t. split; [assumption|].
      now apply String.eqb_eq. }
    lia.
  - unfold Aggregate, group_by_key.
    destruct (group_fold
                (match_level_z level (unwind_levels (match_levels_z level stored)))
                []) as (Hs & _).
    rewrite Hs, <- pipeline_tiles, length_map. simpl. lia.
Qed.

Lemma tiles_at_app level (s1 s2 : list Record_) :
  tiles_at level (s1 ++ s2) = tiles_at level s1 ++ tiles_at level s2.
Proof. unfold tiles_at. now rewrite flat_map_app, filter_app. Qed.

(** X8. Counts add up over stores: for every key, the count the
    aggregation gives over two stores put together is the sum of the counts
    it gives over each (0 for a key without a group). *)
Theorem Aggregate_app (s1 s2 : list Record_) (level : Z) (k : string) :
  group_count k (Aggregate (s1 ++ s2) level) =
  group_count k (Aggregate s1 level) + group_count k (Aggregate s2 level).
Proof.
  rewrite !Aggregate_group_count, tiles_at_app, filter_app, length_app. lia.
Qed.

Lemma filter_length_Permutation {A : Type} (f : A -> bool) (l l' : list A) :
  Permutation l l' -> List.length (filter f l) = List.length (filter f l').
Proof.
  induction 1 as [|a l l' _ IH|a b l|l l' l'' _ IH1 _ IH2]; simpl.
  - reflexivity.
  - destruct (f a); simpl; now rewrite IH.
  - destruct (f a), (f b); reflexivity.
  - congruence.
Qed.

(** X9. The counts do not depend on the order of the stored records: two
    stores that are permutations of each other give every key the same
    count, and the same total. *)
Theorem Aggregate_Permutation (s1 s2 : list Record_) (level : Z) :
  Permutation s1 s2 ->
  (forall k, group_count k (Aggregate s1 level) =
             group_count k (Aggregate s2 level)) /\
  sum_counts (Aggregate s1 level) = sum_counts (Aggregate s2 level).
Proof.
  intros Hp.
  assert (Ht : Permutation (tiles_at level s1) (tiles_at level s2)).
  { unfold tiles_at.
    assert (Hf : Permutation (flat_map Levels s1) (flat_map Levels s2))
      by now apply Permutation_flat_map.
    clear Hp. induction Hf as [|a l l' _ IH|a b l|l l' l'' _ IH1 _ IH2]; simpl.
    - constructor.
    - destruct (Tile.Z a =? level); [now constructor | assumption].
    - destruct (Tile.Z a =? level), (Tile.Z b =? level);
        try apply Permutation_refl. apply perm_swap.
    - now apply Permutation_trans with (filter (fun t => Tile.Z t =? level) l'). }
  split.
  - intros k. rewrite !Aggregate_group_count.
    now rewrite (filter_length_Permutation _ _ _ Ht).
  - destruct (Aggregate_sum s1 level) as [-> _].
    destruct (Aggregate_sum s2 level) as [-> _].
    now rewrite (Permutation_length Ht).
Qed.

(** *** Stores the indexer filled *)

Lemma indexed_tiles_of_zoom r level :
  indexed r ->
  List.length (filter (fun t => Tile.Z t =? level) (Levels r)) =
  if (minZoom <=? level) && (level <=? maxZoom) then 1%nat else 0%nat.
Proof.
  intros Hr.
  pose proof (one_tile_at_zoom level (Levels r) (indexed_one_tile_per_zoom r Hr))
    as Hone.
  destruct (indexed_levels r Hr) as (lon & lat & Hl).
  destruct ((minZoom <=? level) && (level <=? maxZoom)) eqn:E.
  - apply andb_true_iff in E as [E1 E2].
    apply Z.leb_le in E1. apply Z.leb_le in E2. unfold minZoom, maxZoom in *.
    assert (Hpos : (0 < List.length
                      (filter (fun t => (Tile.Z t =? level)%Z) (Levels r)))%nat).
    { apply filter_nonempty. exists (tile_at lon lat level). split.
      - rewrite Hl. apply in_map, Zseq_In. unfold minZoom. lia.
      - apply Z.eqb_eq. apply tile_at_fields. lia. }
    lia.
  - destruct (filter (fun t => Tile.Z t =? level) (Levels r)) as [|t l] eqn:F;
      [reflexivity|]. exfalso.
    assert (Ht : In t (filter (fun t => Tile.Z t =? level) (Levels r)))
      by (rewrite F; now left).
    apply filter_In in Ht as [Ht Hz]. apply Z.eqb_eq in Hz.
    rewrite Hl in Ht. apply in_map_iff in Ht as (k & <- & Hk).
    apply Zseq_In in Hk. unfold minZoom, maxZoom in *.
    destruct (tile_at_fields lon lat k) as (HZ & _); [lia|].
    rewrite HZ in Hz. subst k.
    apply andb_false_iff in E as [E|E]; apply Z.leb_gt in E; lia.
Qed.

Lemma indexed_store_tiles (stored : list Record_) level :
  Forall indexed stored ->
  List.length (tiles_at level stored) =
  if (minZoom <=? level) && (level <=? maxZoom)
  then List.length stored else 0%nat.
Proof.
  unfold tiles_at. induction 1 as [|r rs Hr Hrs IH]; simpl.
  - now destruct ((minZoom <=? level) && (level <=? maxZoom)).
  - rewrite filter_app, length_app, IH, (indexed_tiles_of_zoom r level Hr).
    now destruct ((minZoom <=? level) && (level <=? maxZoom)).
Qed.

(** X10. Over a store the indexer filled, at a zoom of the range
    [minZoom .. maxZoom], every record is counted exactly once: the counts
    add up to the number of stored records. *)
Theorem Aggregate_counts_every_record (stored : list Record_) (level : Z) :
  Forall indexed stored ->
  minZoom <= level <= maxZoom ->
  sum_counts (Aggregate stored level) = Z.of_nat (List.length stored).
Proof.
  intros Hall [H1 H2].
  destruct (Aggregate_sum stored level) as [-> _].
  rewrite (indexed_store_tiles stored level Hall).
  apply Z.leb_le in H1. apply Z.leb_le in H2. now rewrite H1, H2.
Qed.

(** X11. When the store holds records the indexer built and answers the
    pipeline, a zoom outside the range [minZoom .. maxZoom] gives no group,
    and [demo] prints the encoding of an empty collection. *)
Theorem demo_zoom_out_of_range
  (repo : Z -> store_reply) (stored : list Record_) (level : Z)
  (rawRes : list RawStats.t) :
  Forall indexed stored ->
  level < minZoom \/ maxZoom < level ->
  answers repo stored level rawRes ->
  rawRes = [] /\
  demo repo level =
  Printed (fst (MarshalIndent (GeoJSONFeatures.mk "FeatureCollection" []))).
Proof.
  intros Hall Hout [Hreply Hperm].
  assert (Hagg : Aggregate stored level = []).
  { pose proof (indexed_store_tiles stored level Hall) as Hlen.
    replace ((minZoom <=? level) && (level <=? maxZoom)) with false in Hlen
      by (symmetry; apply andb_false_iff;
          destruct Hout; [left | right]; apply Z.leb_gt; assumption).
    rewrite <- pipeline_tiles, length_map in Hlen.
    apply length_zero_iff_nil in Hlen.
    unfold Aggregate. now rewrite Hlen. }
  rewrite Hagg in Hperm. apply Permutation_sym, Permutation_nil in Hperm.
  subst rawRes. split; [reflexivity|]. unfold demo. now rewrite Hreply.
Qed.

Lemma Aggregate_group_tile (stored : list Record_) level g :
  In g (Aggregate stored level) ->
  exists r t,
    In r stored /\ In t (Levels r) /\ Tile.Z t = level /\
    Tile.Key t = RawStats.ID g.
Proof.
  intros Hg.
  assert (Hk : In (RawStats.ID g) (map RawStats.ID (Aggregate stored level)))
    by now apply in_map.
  apply Aggregate_keys in Hk as (t & Ht & Hkey).
  unfold tiles_at in Ht. apply filter_In in Ht as [Ht Hz].
  apply in_flat_map in Ht as (r & Hr & Ht). apply Z.eqb_eq in Hz.
  now exists r, t.
Qed.

Lemma features_loop_Forall2
  (P : RawStats.t -> GeoJSONFeatureItem.t -> Prop) (rawRes : list RawStats.t) :
  Forall (fun raw => exists f,
            FromRawStatsToGeoJSONFeatureItem raw = Ok f /\ P raw f) rawRes ->
  exists res, features_loop rawRes = Ok res /\ Forall2 P rawRes res.
Proof.
  induction 1 as [|raw rest (f & Hf & HP) _ (res & Hres & HF)]; simpl.
  - exists []. split; [reflexivity | constructor].
  - rewrite Hf, Hres. simpl. exists (f :: res).
    split; [reflexivity | now constructor].
Qed.

(** X12. When the store holds records the indexer built and answers the
    pipeline, with the groups in any order, [demo] does not panic: it
    prints the encoding of one feature per group, in the order of the
    answer, and the feature of a group carries the group's count and key
    and lies at the centre of the tile, at the requested zoom, whose key the
    group has. *)
Theorem demo_indexed_store
  (repo : Z -> store_reply) (stored : list Record_) (level : Z)
  (rawRes : list RawStats.t) :
  uint32_valued lib ->
  Forall indexed stored ->
  answers repo stored level rawRes ->
  exists res,
    demo repo level =
    Printed (fst (MarshalIndent (GeoJSONFeatures.mk "FeatureCollection" res))) /\
    Forall2 (fun g f =>
               exists r t,
                 In r stored /\ In t (Levels r) /\ Tile.Z t = level /\
                 Tile.Key t = RawStats.ID g /\
                 f = feature_of g (Tile.X t) (Tile.Y t) level)
            rawRes res.
Proof.
  intros Hlib Hall [Hreply Hperm]. unfold demo. rewrite Hreply.
  destruct (features_loop_Forall2
              (fun g f =>
                 exists r t,
                   In r stored /\ In t (Levels r) /\ Tile.Z t = level /\
                   Tile.Key t = RawStats.ID g /\
                   f = feature_of g (Tile.X t) (Tile.Y t) level)
              rawRes) as (res & Hres & HF).
  - apply Forall_forall. intros g Hg.
    apply (Permutation_in _ Hperm) in Hg.
    destruct (Aggregate_group_tile stored level g Hg)
      as (r & t & Hr & Ht & Hz & Hkey).
    assert (Hri : indexed r) by (eapply Forall_forall; eassumption).
    exists (feature_of g (Tile.X t) (Tile.Y t) level). split.
    + destruct (indexed_tile r t Hri Ht) as (lon & lat & _ & _ & Hzr & Heq).
      unfold minZoom, maxZoom in Hzr.
      pose proof (tile_at_key_decodes lon lat (Tile.Z t) Hlib ltac:(lia)) as Hd.
      rewrite <- Heq in Hd. rewrite Hkey, Hz in Hd.
      unfold FromRawStatsToGeoJSONFeatureItem. rewrite Hd. reflexivity.
    + exists r, t. auto.
  - rewrite Hres. eauto.
Qed.

Lemma features_loop_panic_short (rawRes : list RawStats.t) p :
  features_loop rawRes = Panic p ->
  Exists (fun raw => (List.length (Split (RawStats.ID raw) "-") < 3)%nat) rawRes.
Proof.
  induction rawRes as [|raw rest IH]; simpl; [discriminate|].
  destruct (le_lt_dec 3 (List.length (Split (RawStats.ID raw) "-")))
    as [Hlen|Hlen]; [|intros _; now apply Exists_cons_hd].
  destruct (Split (RawStats.ID raw) "-") as [|a [|b [|c parts]]] eqn:E;
    simpl in Hlen; try lia.
  unfold FromRawStatsToGeoJSONFeatureItem, obrMapTile_of_key. rewrite E.
  simpl. destruct (features_loop rest) as [fs|q] eqn:F; simpl; [discriminate|].
  intros [= <-]. apply Exists_cons_tl. now apply IH.
Qed.

(** X20. The panics of [demo], all of them: the [log.Panicln] of an
    error of [repo.Aggregate], the [log.Panicln] of an error of
    [xmongo.Decode], and the index panic of the decoding when the store
    answers with a key of fewer than three parts. *)
Theorem demo_panics (repo : Z -> store_reply) (level : Z) (v : demo_panic) :
  demo repo level = DemoPanic v <->
  (exists err, repo level = AggregateError err /\
               v = LogPanicln "Aggregate err" err) \/
  (exists err, repo level = DecodeError err /\
               v = LogPanicln "Decode err" err) \/
  (exists rawRes p,
     repo level = Decoded rawRes /\ features_loop rawRes = Panic p /\
     Exists (fun raw => (List.length (Split (RawStats.ID raw) "-") < 3)%nat)
            rawRes /\
     v = DecodingPanic p).
Proof.
  unfold demo. split.
  - destruct (repo level) as [err|err|rawRes] eqn:E.
    + intros [= <-]. left. eauto.
    + intros [= <-]. right. left. eauto.
    + destruct (features_loop rawRes) as [res|p] eqn:F; [discriminate|].
      intros [= <-]. right. right. exists rawRes, p.
      repeat split; auto. now apply (features_loop_panic_short rawRes p).
  - intros [(err & -> & ->) | [(err & -> & ->) | (rawRes & p & -> & -> & _ & ->)]];
      reflexivity.
Qed.

End AggregationFacts.

Section DecodingFacts.
Context {lib : MapTileLib}.

Lemma Split_nonempty s sep : Split s sep <> [].
Proof.
  destruct s as [|c s]; simpl; [discriminate|].
  destruct (Ascii.eqb c sep); [discriminate|].
  destruct (Split s sep); discriminate.
Qed.

(** Splitting on either side of a separator. *)
Lemma Split_app s t sep :
  Split (s ++ String sep t) sep = Split s sep ++ Split t sep.
Proof.
  induction s as [|c s IH]; simpl.
  - now rewrite Ascii.eqb_refl.
  - destruct (Ascii.eqb c sep); [now rewrite IH|].
    rewrite IH. pose proof (Split_nonempty s sep) as Hne.
    destruct (Split s sep) as [|piece pieces]; [congruence | reflexivity].
Qed.

Lemma index_app_left {A : Type} (l l' : list A) i :
  (i < List.length l)%nat -> index (l ++ l') i = index l i.
Proof.
  intros Hi. unfold index. rewrite nth_error_app1 by assumption.
  destruct (nth_error l i) eqn:E; [reflexivity|].
  apply nth_error_None in E. lia.
Qed.

(** X13. Whatever follows the third part of a key is ignored: a key of at
    least three parts decodes to the same tile when a separator and any text
    are appended to it. *)
Theorem obrMapTile_of_key_ignores_tail (id junk : string) :
  (3 <= List.length (Split id "-"))%nat ->
  obrMapTile_of_key (id ++ String "-" junk) = obrMapTile_of_key id.
Proof.
  intros Hlen. unfold obrMapTile_of_key. cbv zeta.
  rewrite Split_app, !index_app_left by lia. reflexivity.
Qed.

(** X14. The decoding makes no range check: a key of three non-negative
    numbers of the [int64] range decodes to the tile of their residues
    modulo 2^32. *)
Theorem obrMapTile_of_key_wraps (x y z : Z) :
  0 <= x < 2 ^ 63 -> 0 <= y < 2 ^ 63 -> 0 <= z < 2 ^ 63 ->
  obrMapTile_of_key (Sprintf_key x y z) =
  Ok (maptile.New (x mod 2 ^ 32) (y mod 2 ^ 32) (z mod 2 ^ 32)).
Proof.
  intros Hx Hy Hz. unfold obrMapTile_of_key.
  rewrite Split_key by lia. unfold index. simpl nth_error. simpl bind.
  rewrite fmt_int_nonneg by lia.
  rewrite !ParseInt_fmt_uint by lia. reflexivity.
Qed.

End DecodingFacts.

Section LoaderFacts.
Context {lib : MapTileLib} {env : DemoEnv}.

Lemma SetLevels_of_pair (id : ObjectID) (long_float lat_float : float64) :
  SetLevels {| ID := id;
               Location := GeoPoint.mk "Point" [long_float; lat_float];
               Levels := [] |} =
  Ok {| ID := id;
        Location := GeoPoint.mk "Point" [long_float; lat_float];
        Levels := map (tile_at long_float lat_float) (Zseq minZoom 14) |}.
Proof. apply SetLevels_ok; reflexivity. Qed.

(** One step of the loop on a data line. *)
Lemma SetupDemoData_loop_step line rest i ids ret :
  SetupDemoData_loop (line :: rest) (S i) ids ret =
  match Split line "," with
  | [lat_str; long_str] =>
      match ParseFloat lat_str with
      | (_, Some err) => LoadPanic (ParseFloatError lat_str err)
      | (lat_float, None) =>
          match ParseFloat long_str with
          | (_, Some err) => LoadPanic (ParseFloatError long_str err)
          | (long_float, None) =>
              SetupDemoData_loop rest (S (S i)) (S ids)
                (ret ++ [{| ID := NewObjectID ids;
                            Location := GeoPoint.mk "Point" [long_float; lat_float];
                            Levels := map (tile_at long_float lat_float)
                                          (Zseq minZoom 14) |}])
          end
      end
  | _ => SetupDemoData_loop rest (S (S i)) ids ret
  end.
Proof.
  cbn [SetupDemoData_loop Nat.eqb].
  destruct (Split line ",") as [|a [|b [|c parts]]]; [reflexivity | reflexivity | | reflexivity].
  destruct (ParseFloat a) as [lat_float [err|]]; [reflexivity|].
  destruct (ParseFloat b) as [long_float [err|]]; [reflexivity|].
  now rewrite SetLevels_of_pair.
Qed.

(** What the loop has appended when it ends without a panic. *)
Lemma SetupDemoData_loop_loaded lines : forall i ids ret out,
  SetupDemoData_loop lines (S i) ids ret = Loaded out ->
  exists res,
    out = ret ++ res /\
    map (fun r => GeoPoint.Coordinates (Location r)) res =
      flat_map line_coordinates lines /\
    map ID res = map NewObjectID (seq ids (List.length res)) /\
    Forall (fun r => indexed r /\ GeoPoint.Type_ (Location r) = "Point") res /\
    Forall line_parses lines.
Proof.
  induction lines as [|line rest IH]; intros i ids ret out Hout.
  - injection Hout as <-. exists []. rewrite app_nil_r.
    repeat split; constructor.
  - rewrite SetupDemoData_loop_step in Hout.
    unfold line_coordinates, line_parses in *. simpl flat_map.
    destruct (Split line ",") as [|a [|b [|c parts]]] eqn:E;
      try (destruct (IH _ _ _ _ Hout) as (res & -> & Hc & Hid & Hres & Hp);
           exists res; repeat split; try assumption;
           constructor; [rewrite E; exact I | assumption]).
    destruct (ParseFloat a) as [lat_float [err|]] eqn:Ea; [discriminate|].
    destruct (ParseFloat b) as [long_float [err|]] eqn:Eb; [discriminate|].
    destruct (IH _ _ _ _ Hout) as (res & -> & Hc & Hid & Hres & Hp).
    eexists (_ :: res). rewrite <- app_assoc. split; [reflexivity|].
    split; [simpl; now rewrite Hc|].
    split; [simpl; now rewrite Hid|].
    split.
    + constructor; [|assumption]. split; [|reflexivity].
      eexists. apply SetLevels_of_pair.
    + constructor; [|assumption]. rewrite E, Ea, Eb. now split.
Qed.

(** The only panics of the loop. *)
Lemma SetupDemoData_loop_panic lines : forall i ids ret v,
  SetupDemoData_loop lines (S i) ids ret = LoadPanic v ->
  exists num err, v = ParseFloatError num err /\ snd (ParseFloat num) = Some err.
Proof.
  induction lines as [|line rest IH]; intros i ids ret v Hv; [discriminate|].
  rewrite SetupDemoData_loop_step in Hv.
  destruct (Split line ",") as [|a [|b [|c parts]]]; try (eapply IH; eassumption).
  destruct (ParseFloat a) as [lat_float [err|]] eqn:Ea.
  { injection Hv as <-. exists a, err. now rewrite Ea. }
  destruct (ParseFloat b) as [long_float [err|]] eqn:Eb.
  { injection Hv as <-. exists b, err. now rewrite Eb. }
  eapply IH; eassumption.
Qed.

Lemma SetupDemoData_loop_total lines : forall i ids ret,
  Forall line_parses lines ->
  exists out, SetupDemoData_loop lines (S i) ids ret = Loaded out.
Proof.
  induction lines as [|line rest IH]; intros i ids ret Hp; [now eexists|].
  inversion Hp as [|? ? Hline Hrest]; subst.
  rewrite SetupDemoData_loop_step. unfold line_parses in Hline.
  destruct (Split line ",") as [|a [|b [|c parts]]]; try (now apply IH).
  destruct Hline as [Ha Hb].
  destruct (ParseFloat a) as [lat_float [err|]]; [discriminate|].
  destruct (ParseFloat b) as [long_float [err|]]; [discriminate|].
  now apply IH.
Qed.

(** The loader skips the first line and runs the loop on the others. *)
Lemma SetupDemoData_lines csv :
  SetupDemoData csv =
  SetupDemoData_loop (tl (Split csv line_feed)) 1 0 [].
Proof.
  unfold SetupDemoData. pose proof (Split_nonempty csv line_feed) as Hne.
  destruct (Split csv line_feed) as [|header rest]; [congruence | reflexivity].
Qed.

(** X15. When [SetupDemoData] returns, it returns one record for each
    line, after the first, that has exactly two comma-separated fields, in
    the order of the file; the record is a ["Point"] whose coordinates are
    the second field, then the first (longitude before latitude). The first
    line and the lines with another number of fields give no record. *)
Theorem SetupDemoData_records (csv : string) (ret : list Record_) :
  SetupDemoData csv = Loaded ret ->
  map (fun r => GeoPoint.Coordinates (Location r)) ret =
    flat_map line_coordinates (tl (Split csv line_feed)) /\
  Forall (fun r => GeoPoint.Type_ (Location r) = "Point") ret.
Proof.
  rewrite SetupDemoData_lines. intros Hret.
  destruct (SetupDemoData_loop_loaded _ _ _ _ _ Hret)
    as (res & -> & Hc & _ & Hres & _).
  split; [exact Hc|]. simpl.
  eapply Forall_impl; [|exact Hres]. now intros r [_ Hr].
Qed.

(** X16. Every record [SetupDemoData] returns is a record as [SetLevels]
    builds them, with its complete stack of [maxZoom - minZoom + 1] tiles:
    what the aggregation needs of a store holds of the loaded records. *)
Theorem SetupDemoData_indexed (csv : string) (ret : list Record_) :
  SetupDemoData csv = Loaded ret ->
  Forall (fun r => indexed r /\
                   Z.of_nat (List.length (Levels r)) = maxZoom - minZoom + 1)
         ret.
Proof.
  rewrite SetupDemoData_lines. intros Hret.
  destruct (SetupDemoData_loop_loaded _ _ _ _ _ Hret)
    as (res & -> & _ & _ & Hres & _).
  simpl. eapply Forall_impl; [|exact Hres]. intros r [Hr _].
  split; [exact Hr|].
  destruct (indexed_levels r Hr) as (lon & lat & ->).
  now rewrite length_map, Zseq_length.
Qed.

(** X17. [SetupDemoData] panics only with an error of [ParseFloat]:
    [SetLevels] never panics in it. It returns whenever both fields of every
    two-field line after the first are accepted by [ParseFloat], and only
    then. *)
Theorem SetupDemoData_panics (csv : string) :
  (forall v, SetupDemoData csv = LoadPanic v ->
     exists num err,
       v = ParseFloatError num err /\ snd (ParseFloat num) = Some err) /\
  ((exists ret, SetupDemoData csv = Loaded ret) <->
   Forall line_parses (tl (Split csv line_feed))).
Proof.
  rewrite SetupDemoData_lines. split; [|split].
  - intros v. apply SetupDemoData_loop_panic.
  - intros [ret Hret].
    now destruct (SetupDemoData_loop_loaded _ _ _ _ _ Hret) as (_ & _ & _ & _ & _ & Hp).
  - apply SetupDemoData_loop_total.
Qed.

Lemma Split_no_byte s sep : no_byte sep s -> Split s sep = [s].
Proof.
  induction s as [|c s IH]; simpl; [reflexivity|]. intros [Hc Hs].
  apply Ascii.eqb_neq in Hc. now rewrite Hc, (IH Hs).
Qed.

(** X18. A file of a single line, the empty file included, gives no
    record and no panic, whatever the line contains. *)
Theorem SetupDemoData_single_line (csv : string) :
  no_byte line_feed csv -> SetupDemoData csv = Loaded [].
Proof.
  intros Hcsv. rewrite SetupDemoData_lines, (Split_no_byte _ _ Hcsv).
  reflexivity.
Qed.

(** X19. Loading, then aggregating: at every zoom of the range, the counts
    over the loaded records add up to the number of lines of the file,
    after the first, that have exactly two fields. *)
Theorem SetupDemoData_then_Aggregate (csv : string) (ret : list Record_) (level : Z) :
  SetupDemoData csv = Loaded ret ->
  minZoom <= level <= maxZoom ->
  sum_counts (Aggregate ret level) =
  Z.of_nat (List.length
              (filter (fun line => Nat.eqb (List.length (Split line ",")) 2)
                      (tl (Split csv line_feed)))).
Proof.
  rewrite SetupDemoData_lines. intros Hret [H1 H2].
  destruct (SetupDemoData_loop_loaded _ _ _ _ _ Hret)
    as (res & -> & Hc & _ & Hres & _). simpl app.
  destruct (Aggregate_sum res level) as [-> _].
  rewrite (indexed_store_tiles res level)
    by (eapply Forall_impl; [|exact Hres]; now intros r [Hr _]).
  apply Z.leb_le in H1. apply Z.leb_le in H2. rewrite H1, H2. simpl.
  f_equal. rewrite <- (length_map (fun r => GeoPoint.Coordinates (Location r))), Hc.
  clear. induction (tl (Split csv line_feed)) as [|line rest IH];
    simpl; [reflexivity|].
  rewrite length_app, IH. unfold line_coordinates.
  destruct (Split line ",") as [|a [|b [|c parts]]]; reflexivity.
Qed.

End LoaderFacts.

(** ** The further properties on inputs *)

Lemma new_york_tile_12_In : In new_york_tile_12 (Levels (indexed_record new_york)).
Proof. apply (nth_error_In _ 12). vm_compute. reflexivity. Defined.

Lemma new_york_record_indexed : @indexed linear_tiling (indexed_record new_york).
Proof. exists (record_of new_york). exact new_york_indexed. Defined.

Lemma sample_csv_loaded :
  @SetupDemoData linear_tiling sample_env sample_csv = Loaded sample_loaded.
Proof. vm_compute. reflexivity. Defined.

Lemma SetLevels_idempotent_witness :
  @SetLevels linear_tiling (record_of new_york) = Ok (indexed_record new_york) /\
  @SetLevels linear_tiling (indexed_record new_york) = Ok (indexed_record new_york).
Proof.
  split; [exact new_york_indexed|].
  exact (@SetLevels_idempotent linear_tiling _ _ new_york_indexed).
Defined.

Lemma stack_keys_decode_witness :
  obrMapTile_of_key "1206-1121-12" = Ok (maptile.New 1206 1121 12).
Proof.
  exact (@stack_keys_decode linear_tiling (indexed_record new_york)
           new_york_tile_12 linear_tiling_uint32
           new_york_record_indexed new_york_tile_12_In).
Defined.

Lemma other_new_york_tile_12_In :
  In new_york_tile_12 (Levels other_new_york_indexed).
Proof. apply (nth_error_In _ 12). vm_compute. reflexivity. Defined.

Lemma other_new_york_record_indexed :
  @indexed linear_tiling other_new_york_indexed.
Proof. exists other_new_york_record. vm_compute. reflexivity. Defined.

Lemma stack_keys_identify_tiles_witness :
  Tile.X new_york_tile_12 = 1206 /\ Tile.Y new_york_tile_12 = 1121 /\
  Tile.Z new_york_tile_12 = 12.
Proof.
  exact (@stack_keys_identify_tiles linear_tiling
           (indexed_record new_york) other_new_york_indexed
           new_york_tile_12 new_york_tile_12 linear_tiling_uint32
           new_york_record_indexed new_york_tile_12_In
           other_new_york_record_indexed other_new_york_tile_12_In eq_refl).
Defined.

Lemma Center_of_stack_tile_witness :
  @Center linear_tiling new_york_tile_12 =
  (linear_Center (linear_At ((-73.99)%float, 40.73%float) 12), new_york_tile_12).
Proof.
  exact (@Center_of_stack_tile linear_tiling (indexed_record new_york)
           new_york_tile_12 (-73.99)%float 40.73%float
           new_york_record_indexed new_york_tile_12_In eq_refl eq_refl).
Defined.

Lemma sample_store_Permutation : Permutation sample_store (rev sample_store).
Proof. apply Permutation_rev. Defined.

Lemma Aggregate_Permutation_witness :
  Permutation sample_store (rev sample_store) /\
  sum_counts (@Aggregate sample_store 12) =
  sum_counts (@Aggregate (rev sample_store) 12).
Proof.
  split; [exact sample_store_Permutation|].
  exact (proj2 (@Aggregate_Permutation sample_store (rev sample_store) 12
                  sample_store_Permutation)).
Defined.

Lemma zoom_12_in_range : minZoom <= 12 <= maxZoom.
Proof. unfold minZoom, maxZoom. lia. Defined.

Lemma Aggregate_counts_every_record_witness :
  sum_counts (@Aggregate sample_store 12) = 4.
Proof.
  exact (@Aggregate_counts_every_record linear_tiling sample_store 12
           sample_store_indexed zoom_12_in_range).
Defined.

Lemma working_repo_answers (stored : list Record_) (level : Z) :
  answers (working_repo stored) stored level (Aggregate stored level).
Proof. split; [reflexivity | apply Permutation_refl]. Defined.

Lemma demo_zoom_out_of_range_witness :
  (14 < minZoom \/ maxZoom < 14) /\
  Aggregate sample_store 14 = [] /\
  @demo linear_tiling sample_encoder (working_repo sample_store) 14 =
  Printed "".
Proof.
  assert (H : 14 < minZoom \/ maxZoom < 14)
    by (right; unfold maxZoom; lia).
  split; [exact H|].
  exact (@demo_zoom_out_of_range linear_tiling sample_encoder
           (working_repo sample_store) sample_store 14
           (Aggregate sample_store 14)
           sample_store_indexed H (working_repo_answers sample_store 14)).
Defined.

Lemma demo_indexed_store_witness :
  exists res,
    @demo linear_tiling sample_encoder (working_repo sample_store) 12 =
    Printed (fst (sample_MarshalIndent
                    (GeoJSONFeatures.mk "FeatureCollection" res))) /\
    List.length res = 2%nat.
Proof.
  destruct (@demo_indexed_store linear_tiling sample_encoder
              (working_repo sample_store) sample_store 12
              (Aggregate sample_store 12)
              linear_tiling_uint32 sample_store_indexed
              (working_repo_answers sample_store 12)) as (res & Hres & HF).
  exists res. split; [exact Hres|].
  rewrite <- (Forall2_length HF), sample_store_zoom_12. reflexivity.
Defined.

Lemma obrMapTile_of_key_ignores_tail_witness :
  (3 <= List.length (Split "1206-1121-12" "-"))%nat /\
  obrMapTile_of_key "1206-1121-12-and-more" = obrMapTile_of_key "1206-1121-12".
Proof.
  assert (H : (3 <= List.length (Split "1206-1121-12" "-"))%nat)
    by (simpl; lia).
  split; [exact H|].
  exact (obrMapTile_of_key_ignores_tail "1206-1121-12" "and-more" H).
Defined.

Lemma obrMapTile_of_key_wraps_witness :
  obrMapTile_of_key (Sprintf_key 4294967297 4294967296 12) =
  Ok (maptile.New 1 0 12).
Proof.
  apply (obrMapTile_of_key_wraps 4294967297 4294967296 12); lia.
Defined.

Lemma SetupDemoData_records_witness :
  map (fun r => GeoPoint.Coordinates (Location r)) sample_loaded =
  [[(-73.99)%float; 40.73%float]; [(-71.06)%float; 42.36%float]].
Proof.
  exact (proj1 (@SetupDemoData_records linear_tiling sample_env sample_csv
                  sample_loaded sample_csv_loaded)).
Defined.

Lemma SetupDemoData_indexed_witness :
  Forall (fun r => @indexed linear_tiling r /\
                   Z.of_nat (List.length (Levels r)) = maxZoom - minZoom + 1)
         sample_loaded.
Proof.
  exact (@SetupDemoData_indexed linear_tiling sample_env sample_csv
           sample_loaded sample_csv_loaded).
Defined.

Lemma SetupDemoData_single_line_witness :
  no_byte line_feed "Latitude,Longitude" /\
  @SetupDemoData linear_tiling sample_env "Latitude,Longitude" = Loaded [].
Proof.
  assert (H : no_byte line_feed "Latitude,Longitude")
    by (simpl; repeat split; discriminate).
  split; [exact H|].
  exact (@SetupDemoData_single_line linear_tiling sample_env _ H).
Defined.

Lemma SetupDemoData_then_Aggregate_witness :
  sum_counts (@Aggregate sample_loaded 12) = 2.
Proof.
  exact (@SetupDemoData_then_Aggregate linear_tiling sample_env sample_csv
           sample_loaded 12 sample_csv_loaded zoom_12_in_range).
Defined.
